(** * Triangulation of feature tracks: a shallow embedding of
      [bundle_adjust/feature_tracks/ft_triangulate.py]

    The development follows the Python module function by function.

    Numbers.  The source computes in [float32]/[float64].  Here every finite
    number is an exact rational ([Qc], canonical rationals with Leibniz
    equality) and the missing-value marker of the correspondence matrix is the
    constructor [NaN].  The rounding of the arithmetic is therefore outside
    the model: equalities proved below are the exact-arithmetic ones.  What is
    in the model is the one place where the source converts numbers: the
    accumulators of [init_pts3d] are [float32] arrays, so the store of the
    triangulated points (which are [float64]) into [new_values] narrows them;
    that conversion is the parameter [float32].  [Qc] division by zero is [0],
    where numpy produces an infinity or a nan: a quotient whose divisor is
    zero is outside the model too, and a statement that depends on its value
    assumes the divisor is not zero.

    Exceptions.  Python raises; the embedding returns a [result]. *)

From Stdlib Require Import QArith Qabs Qround Qpower Qcanon Qcabs Field.
From stdpp Require Import base list numbers strings gmap.

(* ===================================================================== *)
(** * Part I: definitions *)
(* ===================================================================== *)

(** ** Exceptions as results *)

Inductive exn : Type :=
  | IndexError    (* sequence index out of range *)
  | TypeError     (* an object of the wrong kind used as an index *)
  | ValueError    (* numpy shape mismatch on assignment or stacking *)
  | ExternalError (* raised inside an external collaborator *).

Inductive result (A : Type) : Type :=
  | Ok (a : A)
  | Raise (e : exn).
Arguments Ok {A} a.
Arguments Raise {A} e.

#[global] Instance result_ret : MRet result := λ A a, Ok a.
#[global] Instance result_bind : MBind result := λ A B f m,
  match m with Ok a => f a | Raise e => Raise e end.
#[global] Instance result_fmap : FMap result := λ A B f m,
  match m with Ok a => Ok (f a) | Raise e => Raise e end.

Definition is_ok {A} (r : result A) : bool :=
  match r with Ok _ => true | Raise _ => false end.

(** A Python [for] loop whose body may raise: the state is threaded from left
    to right and the first exception ends the loop. *)
Fixpoint for_each {St X : Type} (body : St → X → result St) (s : St)
    (xs : list X) : result St :=
  match xs with
  | [] => Ok s
  | x :: xs' => s' ← body s x; for_each body s' xs'
  end.

(** ** Python sequence indexing *)

(** [seq[i]] for an integer [i] and a sequence of length [n]: indices
    [-n .. -1] count from the end, anything else outside [0 .. n-1] raises. *)
Definition py_index (n : nat) (i : Z) : result nat :=
  if bool_decide (0 ≤ i < Z.of_nat n)%Z then Ok (Z.to_nat i)
  else if bool_decide (- Z.of_nat n ≤ i < 0)%Z then Ok (Z.to_nat (Z.of_nat n + i))
  else Raise IndexError.

Definition py_getitem {A} (l : list A) (i : Z) : result A :=
  k ← py_index (length l) i;
  from_option Ok (Raise IndexError) (l !! k).

(** The position a valid index [i] stands for in a sequence of length [n]. *)
Definition py_wrap (n : nat) (i : Z) : Z :=
  if bool_decide (i < 0)%Z then (Z.of_nat n + i)%Z else i.

(** A bound of a slice [a:b] (step 1): negative bounds count from the end and
    every bound is clamped to [0 .. n]; slices never raise. *)
Definition slice_bound (n : nat) (i : Z) : nat :=
  if bool_decide (i < 0)%Z then Z.to_nat (Z.max 0 (Z.of_nat n + i))
  else Z.to_nat (Z.min (Z.of_nat n) i).

Definition py_slice {A} (l : list A) (start stop : Z) : list A :=
  let a := slice_bound (length l) start in
  let b := slice_bound (length l) stop in
  take (b - a) (drop a l).

(** [l[::2]] *)
Fixpoint every_other {A} (l : list A) : list A :=
  match l with
  | [] => []
  | [x] => [x]
  | x :: _ :: l' => x :: every_other l'
  end.

(** ** Numbers and 3d points *)

Inductive cell : Type :=
  | NaN
  | Val (q : Qc).

Definition isnan (c : cell) : bool :=
  match c with NaN => true | Val _ => false end.

(** One row of an [n x 3] array. *)
Record pt3 : Type := Pt3 { px : Qc; py : Qc; pz : Qc }.

Definition pt3_zero : pt3 := Pt3 0 0 0.
Definition pt3_add (a b : pt3) : pt3 :=
  Pt3 (px a + px b) (py a + py b) (pz a + pz b).
(** broadcasting of a column of scalars against the rows: [s * row], [row / s] *)
Definition pt3_scale (s : Qc) (a : pt3) : pt3 :=
  Pt3 (s * px a) (s * py a) (s * pz a).
Definition pt3_div (a : pt3) (s : Qc) : pt3 :=
  Pt3 (px a / s) (py a / s) (pz a / s).

(** ** numpy arrays *)

(** A two-dimensional array of floats: its second dimension and its rows.
    [C.shape = (length (rows C), n_cols C)]; an entry outside the stored rows
    reads as [NaN]. *)
Record array2 : Type := Array2 { n_cols : nat; rows : list (list cell) }.

Definition row_get (r : list cell) (t : nat) : cell := default NaN (r !! t).

(** [np.zeros(n, dtype=np.float32)] and [np.zeros((n, 3), dtype=np.float32)] *)
Definition np_zeros (n : nat) : list Qc := replicate n 0%Qc.
Definition np_zeros3 (n : nat) : list pt3 := replicate n pt3_zero.

(** [np.where(b)[0]] for a one-dimensional boolean array: the positions of the
    true entries, increasing. *)
Fixpoint where_from (k : nat) (b : list bool) : list nat :=
  match b with
  | [] => []
  | x :: b' => if x then k :: where_from (S k) b' else where_from (S k) b'
  end.
Definition np_where (b : list bool) : list nat := where_from 0 b.

(** [a[idx]] for an index array [idx] (a copy); raises when an index is out of
    range. *)
Fixpoint np_take {A} (a : list A) (idx : list nat) : result (list A) :=
  match idx with
  | [] => Ok []
  | i :: idx' =>
      x ← from_option Ok (Raise IndexError) (a !! i);
      xs ← np_take a idx';
      Ok (x :: xs)
  end.

(** The writes of [a[idx] = vs] once [vs] has the shape of [a[idx]]: in index
    order, a later write to the same position wins. *)
Definition np_put {A} (a : list A) (idx : list nat) (vs : list A) : list A :=
  foldl (λ acc iv, <[iv.1 := iv.2]> acc) a (zip idx vs).

(** [a[idx] = vs] on the rows of a two-dimensional array: every index must be
    in range, and [vs] must have one row per index, or a single row, which is
    broadcast. *)
Definition np_setitem {A} (a : list A) (idx : list nat) (vs : list A)
  : result (list A) :=
  if negb (forallb (λ i, i <? length a) idx) then Raise IndexError
  else if bool_decide (length vs = length idx) then Ok (np_put a idx vs)
  else match vs with
       | [v] => Ok (np_put a idx (replicate (length idx) v))
       | _ => Raise ValueError
       end.

(** [rows[:, idx]] and [.T] of an array with [k] columns held by rows. *)
Definition select_cols (rs : list (list cell)) (idx : list nat)
  : list (list cell) :=
  (λ r, row_get r <$> idx) <$> rs.
Definition np_T (k : nat) (rs : list (list cell)) : list (list cell) :=
  (λ j, (λ r, row_get r j) <$> rs) <$> seq 0 k.

(** ** External collaborators

    [cv2.triangulatePoints], [s2p.triangulation.stereo_corresp_to_xyz] and
    [geo_utils.latlon_to_ecef_custom] are not part of the module; they are
    taken as parameters.  A camera is whatever the list [cameras] holds (a
    projection matrix or an RPC model).

    - [triangulatePoints P1 P2 pts1 pts2] stands for
      [cv2.triangulatePoints(P1, P2, pts1.T, pts2.T)]: it receives the two
      [N x 2] arrays and returns the [4 x N] array of homogeneous points,
      held here by columns (one [pt4] per correspondence).
    - [stereo_corresp_to_xyz] returns the [N x 3] array of (lon, lat, alt)
      rows and the array of errors.
    - [latlon_to_ecef_custom lat lon alt] is the transform of one point; the
      source applies it to whole columns at once.

    With them comes numpy's conversion of a number to [float32], [float32],
    which rounds; it is applied where the source stores into a [float32]
    array. *)

Record pt4 : Type := Pt4 { hx : Qc; hy : Qc; hz : Qc; hw : Qc }.

Class Externals (camera : Type) : Type := {
  triangulatePoints :
    camera → camera → list (list cell) → list (list cell) → result (list pt4);
  stereo_corresp_to_xyz :
    camera → camera → list (list cell) → list (list cell)
    → result (list pt3 * list Qc);
  latlon_to_ecef_custom : Qc → Qc → Qc → pt3;
  float32 : Qc → Qc
}.

Section Triangulate.
Context {camera : Type} `{!Externals camera}.

(** A row of three numbers stored into a [float32] array. *)
Definition pt3_float32 (p : pt3) : pt3 :=
  Pt3 (float32 (px p)) (float32 (py p)) (float32 (pz p)).

(** [linear_triangulation_multiple_pts]: [X[:3, :] / X[-1, :]], transposed. *)
Definition linear_triangulation_multiple_pts
    (P1 P2 : camera) (pts1 pts2 : list (list cell)) : result (list pt3) :=
  X ← triangulatePoints P1 P2 pts1 pts2;
  let pts3d :=
    (λ c, Pt3 (hx c / hw c) (hy c / hw c) (hz c / hw c)) <$> (X : list pt4) in
  Ok pts3d.

(** [rpc_triangulation]: columns 1, 0, 2 of [lonlatalt] go to the coordinate
    transform; [np.vstack((x, y, z)).T] puts the three results back in rows. *)
Definition rpc_triangulation
    (rpc1 rpc2 : camera) (pts1 pts2 : list (list cell))
  : result (list pt3 * list Qc) :=
  '(lonlatalt, err) ← stereo_corresp_to_xyz rpc1 rpc2 pts1 pts2;
  let pts3d :=
    (λ r, latlon_to_ecef_custom (py r) (px r) (pz r)) <$> (lonlatalt : list pt3) in
  Ok (pts3d, err).

(** The inner function [update_avg_pts3d(avg, count, new_v, t)].
    [count[t] += 1.0] reads [count[t]], adds one and writes back;
    [avg[t] = ...] evaluates the right-hand side on the old [avg] and the new
    [count], then writes.  Both arrays are returned. *)
Definition update_avg_pts3d
    (avg : list pt3) (count : list Qc) (new_v : list pt3) (t : list nat)
  : result (list pt3 * list Qc) :=
  count_t ← np_take count t;
  count ← np_setitem count t ((λ c, c + 1)%Qc <$> count_t);
  count_t ← np_take count t;
  avg_t ← np_take avg t;
  new_v_t ← np_take new_v t;
  let rhs :=
    zip_with (λ c an, pt3_div (pt3_add (pt3_scale (c - 1)%Qc an.1) an.2) c)
             count_t (zip avg_t new_v_t) in
  avg ← np_setitem avg t rhs;
  Ok (avg, count).

Section Aggregator.
Variable C : array2.
Variable cameras : list camera.
Variable cam_model : string.

(** [n_pts, n_cam = C.shape[1], C.shape[0] // 2] *)
Definition n_pts : nat := n_cols C.
Definition n_cam : nat := length (rows C) `div` 2.

(** [mask = ~np.isnan(C[::2])] *)
Definition mask : list (list bool) :=
  (λ r, (λ t, negb (isnan (row_get r t))) <$> seq 0 n_pts)
    <$> every_other (rows C).

(** [C[2 * c : 2 * c + 2, pt_indices].T] *)
Definition obs2d (c : Z) (pt_indices : list nat) : list (list cell) :=
  np_T (length pt_indices)
       (select_cols (py_slice (rows C) (2 * c) (2 * c + 2)) pt_indices).

(** The test [c_i < n_cam and c_j < n_cam]. *)
Definition in_range (c_i c_j : Z) : bool :=
  bool_decide (c_i < Z.of_nat n_cam)%Z && bool_decide (c_j < Z.of_nat n_cam)%Z.

(** The triangulation of one pair, chosen by [cam_model]. *)
Definition triangulate_pair (c_i c_j : Z) (obs2d_i obs2d_j : list (list cell))
  : result (list pt3) :=
  if bool_decide (cam_model ∈ ["affine"; "perspective"]) then
    cam_i ← py_getitem cameras c_i;
    cam_j ← py_getitem cameras c_j;
    linear_triangulation_multiple_pts cam_i cam_j obs2d_i obs2d_j
  else
    cam_i ← py_getitem cameras c_i;
    cam_j ← py_getitem cameras c_j;
    '(new_pts3d, _) ← rpc_triangulation cam_i cam_j obs2d_i obs2d_j;
    Ok new_pts3d.

(** The body of the loop over [pairs_to_triangulate], on the two
    accumulators [(avg_pts3d, n_pairs)].  [new_values] is allocated with
    [dtype=np.float32], so the rows of [new_pts3d] are converted when they are
    stored into it.  Progress printing is left out. *)
Definition loop_body (acc : list pt3 * list Qc) (pair : Z * Z)
  : result (list pt3 * list Qc) :=
  let '(avg_pts3d, n_pairs) := acc in
  let '(c_i, c_j) := pair in
  if in_range c_i c_j then
    mask_i ← py_getitem mask c_i;
    mask_j ← py_getitem mask c_j;
    let pt_indices := np_where (zip_with andb mask_i mask_j) in
    let obs2d_i := obs2d c_i pt_indices in
    let obs2d_j := obs2d c_j pt_indices in
    if bool_decide (length pt_indices = 0) then Ok acc   (* continue *)
    else
      new_pts3d ← triangulate_pair c_i c_j obs2d_i obs2d_j;
      new_values ← np_setitem (np_zeros3 n_pts) pt_indices
                      (pt3_float32 <$> (new_pts3d : list pt3));
      update_avg_pts3d avg_pts3d n_pairs new_values pt_indices
  else Ok acc.

(** The loop, returning both accumulators. *)
Definition aggregate (pairs_to_triangulate : list (Z * Z))
  : result (list pt3 * list Qc) :=
  for_each loop_body (np_zeros3 n_pts, np_zeros n_pts) pairs_to_triangulate.

(** [init_pts3d(C, cameras, cam_model, pairs_to_triangulate)] *)
Definition init_pts3d (pairs_to_triangulate : list (Z * Z))
  : result (list pt3) :=
  fst <$> aggregate pairs_to_triangulate.
End Aggregator.
End Triangulate.

(** ** What one pair contributes

    The part of [loop_body] that does not read the accumulators, named so that
    the result of the whole loop can be stated in closed form. *)
Section Contributions.
Context {camera : Type} `{!Externals camera}.
Variable C : array2.
Variable cameras : list camera.
Variable cam_model : string.

(** [pt_indices] and [new_pts3d] of a pair; [None] when the pair is skipped
    (an index not below [n_cam], or no track seen by both cameras). *)
Definition pair_triangulation (pair : Z * Z)
  : result (option (list nat * list pt3)) :=
  let '(c_i, c_j) := pair in
  if in_range C c_i c_j then
    mask_i ← py_getitem (mask C) c_i;
    mask_j ← py_getitem (mask C) c_j;
    let pt_indices := np_where (zip_with andb mask_i mask_j) in
    if bool_decide (length pt_indices = 0) then Ok None
    else
      new_pts3d ← triangulate_pair cameras cam_model c_i c_j
                    (obs2d C c_i pt_indices) (obs2d C c_j pt_indices);
      Ok (Some (pt_indices, new_pts3d))
  else Ok None.

(** [pt_indices] and [new_values] of a pair. *)
Definition pair_new_values (pair : Z * Z)
  : result (option (list nat * list pt3)) :=
  r ← pair_triangulation pair;
  match r with
  | None => Ok None
  | Some (pt_indices, new_pts3d) =>
      new_values ← np_setitem (np_zeros3 (n_pts C)) pt_indices
                      (pt3_float32 <$> (new_pts3d : list pt3));
      Ok (Some (pt_indices, new_values))
  end.

(** The value a pair folds into track [t], if any: the row of [new_values]
    for [t], which is the triangulated row as the [float32] array holds it. *)
Definition contribution (t : nat) (pair : Z * Z) : option pt3 :=
  match pair_new_values pair with
  | Ok (Some (pt_indices, new_values)) =>
      if bool_decide (t ∈ pt_indices) then new_values !! t else None
  | _ => None
  end.

(** The values folded into track [t] by a list of pairs, in list order. *)
Definition estimates (pairs : list (Z * Z)) (t : nat) : list pt3 :=
  omap (contribution t) pairs.

(** The row of [new_pts3d] that belongs to track [t]: the row at the position
    of [t] in [pt_indices]. *)
Definition triangulated_point (t : nat) (pair : Z * Z) : option pt3 :=
  match pair_triangulation pair with
  | Ok (Some (pt_indices, new_pts3d)) =>
      j ← list_find (λ i, i = t) pt_indices; new_pts3d !! j.1
  | _ => None
  end.

(** Both cameras of the pair are below [n_cam] and both observe track [t]
    (negative indices read the mask from the end, as in the loop). *)
Definition co_observed (t : nat) (pair : Z * Z) : bool :=
  let '(c_i, c_j) := pair in
  in_range C c_i c_j &&
  match py_getitem (mask C) c_i, py_getitem (mask C) c_j with
  | Ok mask_i, Ok mask_j =>
      bool_decide (mask_i !! t = Some true) && bool_decide (mask_j !! t = Some true)
  | _, _ => false
  end.
End Contributions.

(** The arithmetic mean of a list of points; the empty list has mean zero.
    [count_of n] is [n] as a number. *)
Definition count_of (n : nat) : Qc := Q2Qc (inject_Z (Z.of_nat n)).
Definition pt3_sum (l : list pt3) : pt3 := foldr pt3_add pt3_zero l.
Definition mean (l : list pt3) : pt3 :=
  match l with
  | [] => pt3_zero
  | _ :: _ => pt3_div (pt3_sum l) (count_of (length l))
  end.

(** The right-hand side of [avg[t] = ...] for one entry, given the new count. *)
Definition running_mean (count : Qc) (avg new_v : pt3) : pt3 :=
  pt3_div (pt3_add (pt3_scale (count - 1)%Qc avg) new_v) count.

(** ** The multiview triangulator *)

(** An index object handed to [list.__getitem__]: a Python integer, or a
    numpy index array such as the single element of the tuple that
    [np.where(b)] returns.  A list accepts the first and raises [TypeError] on
    the second. *)
Inductive py_key : Type :=
  | KInt (i : Z)
  | KArray (a : list nat).

Definition list_getitem {A} (l : list A) (k : py_key) : result A :=
  match k with
  | KInt i => py_getitem l i
  | KArray _ => Raise TypeError
  end.

Fixpoint map_result {A B} (f : A → result B) (l : list A) : result (list B) :=
  match l with
  | [] => Ok []
  | x :: l' => y ← f x; ys ← map_result f l'; Ok (y :: ys)
  end.

(** A projection matrix: a [3 x 4] array held by rows. *)
Definition matrix : Type := list (list Qc).

Definition at_index {A} (l : list A) (i : nat) : result A :=
  from_option Ok (Raise IndexError) (l !! i).

(** [x * r1 - r2] on rows *)
Definition row_comb (x : Qc) (r1 r2 : list Qc) : list Qc :=
  zip_with (λ a b, x * a - b)%Qc r1 r2.

Section Multiview.
(** [svd_vh A] is the third component of
    [np.linalg.svd(A, full_matrices=False)] for a two-dimensional [A]; on a
    three-dimensional array numpy applies it to every [A[k]]. *)
Variable svd_vh : matrix → matrix.

(** The inner function [define_row(pts2d, i, P)]: a Python list of two rows. *)
Definition define_row (pts2d : list Qc) (i : nat) (P : matrix)
  : result (list (list Qc)) :=
  x ← at_index pts2d (2 * i);
  P2 ← at_index P 2;
  P0 ← at_index P 0;
  y ← at_index pts2d (2 * i + 1);
  P1 ← at_index P 1;
  Ok [row_comb x P2 P0; row_comb y P2 P1].

(** [A = np.array([define_row(pts2d, i, P) for i, P in enumerate(...)])]:
    one two-row block per camera, so [A.shape = (M, 2, 4)]. *)
Definition multiview_A (pts2d : list Qc) (projection_matrices : list matrix)
  : result (list (list (list Qc))) :=
  map_result (λ iP, define_row pts2d iP.1 iP.2)
             (imap (λ i P, (i, P)) projection_matrices).

(** [linear_triangulation_single_pt_multiview].  With [vh] of shape
    [(M, 2, 4)], [vh.T] has shape [(4, 2, M)]; [vh.T[:3, -1]] has shape
    [(3, M)], its entry [(a, k)] being [vh[k][-1][a]]; [vh.T[-1, -1]] has
    shape [(M,)], its entry [k] being [vh[k][-1][-1]].  The quotient is the
    [3 x M] array returned.  An empty list of matrices gives an array that
    [np.linalg.svd] rejects.  On the blocks the decomposition is taken to
    return, with last rows of at least three entries (they have four for
    projection matrices of four columns); an entry that is not there reads
    as [0]. *)
Definition linear_triangulation_single_pt_multiview
    (pts2d : list Qc) (projection_matrices : list matrix)
  : result (list (list Qc)) :=
  A ← multiview_A pts2d projection_matrices;
  if bool_decide (A = []) then Raise ExternalError
  else
    let vh := svd_vh <$> (A : list matrix) in
    let last_row (blk : matrix) : list Qc := default [] (last blk) in
    let pt_3d :=
      (λ a, (λ blk, default 0 (last_row blk !! a) / default 0 (last (last_row blk)))%Qc
              <$> vh) <$> seq 0 3 in
    Ok pt_3d.

(** [linear_triangulation_single_pt]: the two-view function of the same
    module, whose [A] is the two-dimensional [4 x 4] array of the four rows. *)
Definition single_pt_A (P1 P2 : matrix) (pt1 pt2 : list Qc) : result matrix :=
  x1 ← at_index pt1 0; y1 ← at_index pt1 1;
  x2 ← at_index pt2 0; y2 ← at_index pt2 1;
  P1_2 ← at_index P1 2; P1_0 ← at_index P1 0;
  let l1 := row_comb x1 P1_2 P1_0 in
  P1_1 ← at_index P1 1;
  let l2 := row_comb y1 P1_2 P1_1 in
  P2_2 ← at_index P2 2; P2_0 ← at_index P2 0;
  let l3 := row_comb x2 P2_2 P2_0 in
  P2_1 ← at_index P2 1;
  let l4 := row_comb y2 P2_2 P2_1 in
  Ok [l1; l2; l3; l4].

(** [svd A] is the third component of [np.linalg.svd(A, full_matrices=False)]
    for the two-dimensional [A], or the exception the decomposition raises. *)
Variable svd : matrix → result matrix.

(** [vh.T[:3, -1]] is the first three entries (fewer when the rows are
    shorter) of the last row of [vh], and [vh.T[-1, -1]] is the last entry of
    that row; both raise [IndexError] when there is no such row or entry. *)
Definition linear_triangulation_single_pt (P1 P2 : matrix) (pt1 pt2 : list Qc)
  : result (list Qc) :=
  A ← single_pt_A P1 P2 pt1 pt2;
  vh ← svd A;
  last_row ← from_option Ok (Raise IndexError) (last (vh : matrix));
  d ← from_option Ok (Raise IndexError) (last (last_row : list Qc));
  Ok ((λ x, x / d)%Qc <$> take 3 last_row).

(** [pts_3d[pt_idx, :] = value]: the value must have shape [(3,)], or
    [(1, 3)], which numpy broadcasts. *)
Definition set_row (pts_3d : list pt3) (pt_idx : nat) (value : list (list Qc))
  : result (list pt3) :=
  match value with
  | [[x; y; z]] => Ok (<[pt_idx := Pt3 x y z]> pts_3d)
  | _ => Raise ValueError
  end.

Section InitMultiview.
Variable C : array2.
Variable cameras : list matrix.

(** [true_where_obs = np.invert(np.isnan(C))] *)
Definition true_where_obs : list (list bool) :=
  (λ r, (λ t, negb (isnan (row_get r t))) <$> seq 0 (n_pts C)) <$> rows C.

(** [C[true_where_obs[:, pt_idx], pt_idx]]: the entries of column [pt_idx]
    that are not missing. *)
Definition track_pts2d (pt_idx : nat) : list Qc :=
  omap (λ r, match row_get r pt_idx with NaN => None | Val x => Some x end)
       (rows C).

(** The body of the loop over [range(n_pts)].  [np.where] of a
    one-dimensional array is a tuple with one index array, and the
    comprehension runs over that tuple. *)
Definition multiview_body (pts_3d : list pt3) (pt_idx : nat)
  : result (list pt3) :=
  let col := (λ m, default false (m !! pt_idx)) <$> every_other true_where_obs in
  let where_tuple := [np_where col] in
  projection_matrices ←
    map_result (λ cam_idx, list_getitem cameras (KArray cam_idx)) where_tuple;
  let pts2d := track_pts2d pt_idx in
  value ← linear_triangulation_single_pt_multiview pts2d projection_matrices;
  set_row pts_3d pt_idx value.

Definition init_pts3d_multiview : result (list pt3) :=
  for_each multiview_body (np_zeros3 (n_pts C)) (seq 0 (n_pts C)).
End InitMultiview.
End Multiview.

(** ** The aggregator on a store of arrays

    numpy arrays are mutable objects.  To speak about what [init_pts3d] leaves
    untouched, the same function is written again over a heap of arrays:
    [np.zeros] allocates a fresh object, [a[idx] = v] and [a[idx] += v] write
    into the object [a] names, and [C] is only ever read through its location.
    [C[2 * c : 2 * c + 2, pt_indices]] indexes with an index array, so it is a
    copy: the collaborators never receive [C] itself. *)

Definition loc : Type := positive.

Inductive obj : Type :=
  | Arr2 (a : array2)
  | ArrPts (a : list pt3)
  | ArrNum (a : list Qc).

Definition alloc (h : gmap loc obj) (o : obj) : gmap loc obj * loc :=
  let l := fresh (dom h) in (<[l := o]> h, l).

Definition load_arr2 (h : gmap loc obj) (l : loc) : result array2 :=
  match h !! l with Some (Arr2 a) => Ok a | _ => Raise TypeError end.
Definition load_pts (h : gmap loc obj) (l : loc) : result (list pt3) :=
  match h !! l with Some (ArrPts a) => Ok a | _ => Raise TypeError end.
Definition load_num (h : gmap loc obj) (l : loc) : result (list Qc) :=
  match h !! l with Some (ArrNum a) => Ok a | _ => Raise TypeError end.

(** The loop invariant of the heap version: the heap [h] agrees with the
    initial heap [h0] on every object that existed, and holds the two
    accumulators. *)
Definition heap_inv (h0 : gmap loc obj) (l_avg l_n_pairs : loc)
    (h : gmap loc obj) (acc : list pt3 * list Qc) : Prop :=
  (∀ l, is_Some (h0 !! l) → h !! l = h0 !! l) ∧
  h !! l_avg = Some (ArrPts acc.1) ∧
  h !! l_n_pairs = Some (ArrNum acc.2).

Section Store.
Context {camera : Type} `{!Externals camera}.

(** [update_avg_pts3d] writing in place into the objects [avg] and [count]. *)
Definition update_avg_pts3d_heap
    (h : gmap loc obj) (l_avg l_count l_new_v : loc) (t : list nat)
  : result (gmap loc obj) :=
  count ← load_num h l_count;
  count_t ← np_take count t;
  count ← np_setitem count t ((λ c, c + 1)%Qc <$> count_t);
  let h := <[l_count := ArrNum count]> h in
  count ← load_num h l_count;
  count_t ← np_take count t;
  avg ← load_pts h l_avg;
  avg_t ← np_take avg t;
  new_v ← load_pts h l_new_v;
  new_v_t ← np_take new_v t;
  let rhs :=
    zip_with (λ c an, pt3_div (pt3_add (pt3_scale (c - 1)%Qc an.1) an.2) c)
             count_t (zip avg_t new_v_t) in
  avg ← np_setitem avg t rhs;
  Ok (<[l_avg := ArrPts avg]> h).

Section AggregatorHeap.
Variable l_C : loc.
Variable cameras : list camera.
Variable cam_model : string.

(** The loop body.  [C0] is the array read on entry, from which [n_pts],
    [n_cam] and [mask] were computed before the loop. *)
Definition loop_body_heap (C0 : array2) (l_avg l_n_pairs : loc)
    (h : gmap loc obj) (pair : Z * Z) : result (gmap loc obj) :=
  let '(c_i, c_j) := pair in
  if in_range C0 c_i c_j then
    mask_i ← py_getitem (mask C0) c_i;
    mask_j ← py_getitem (mask C0) c_j;
    let pt_indices := np_where (zip_with andb mask_i mask_j) in
    C ← load_arr2 h l_C;
    let obs2d_i := obs2d C c_i pt_indices in
    let obs2d_j := obs2d C c_j pt_indices in
    if bool_decide (length pt_indices = 0) then Ok h
    else
      new_pts3d ← triangulate_pair cameras cam_model c_i c_j obs2d_i obs2d_j;
      let '(h, l_new) := alloc h (ArrPts (np_zeros3 (n_pts C0))) in
      new_values ← load_pts h l_new;
      new_values ← np_setitem new_values pt_indices
                      (pt3_float32 <$> (new_pts3d : list pt3));
      let h := <[l_new := ArrPts new_values]> h in
      update_avg_pts3d_heap h l_avg l_n_pairs l_new pt_indices
  else Ok h.

(** [init_pts3d] on the heap: the final heap and the location of the
    returned array. *)
Definition init_pts3d_heap (h : gmap loc obj) (pairs_to_triangulate : list (Z * Z))
  : result (gmap loc obj * loc) :=
  C0 ← load_arr2 h l_C;
  let '(h, l_avg) := alloc h (ArrPts (np_zeros3 (n_pts C0))) in
  let '(h, l_n_pairs) := alloc h (ArrNum (np_zeros (n_pts C0))) in
  h ← for_each (loop_body_heap C0 l_avg l_n_pairs) h pairs_to_triangulate;
  Ok (h, l_avg).
End AggregatorHeap.
End Store.

(** ** Rounding to 24 significant bits

    The conversion to [float32] of a number in the normal range of
    [float32]: the nearest number with a 24-bit significand, ties to the even
    significand. *)

(** Nearest integer, ties to even. *)
Definition round_half_even (x : Q) : Z :=
  let f := Qfloor x in
  match (x - inject_Z f ?= 1 # 2)%Q with
  | Lt => f
  | Gt => (f + 1)%Z
  | Eq => if Z.even f then f else (f + 1)%Z
  end.

(** For [a > 0], the [e] with [2 ^ e <= a < 2 ^ (e + 1)]. *)
Definition binade (a : Q) : Z :=
  let e0 := (Z.log2 (Qnum a) - Z.log2 (Zpos (Qden a)))%Z in
  if Qle_bool (2 ^ e0) a then e0 else (e0 - 1)%Z.

Definition round_to_24_bits (x : Qc) : Qc :=
  if Qeq_bool x 0 then x
  else
    let a := Qabs x in
    let e := (binade a - 23)%Z in
    let m := round_half_even (a / 2 ^ e) in
    Q2Qc ((if (0 <? Qnum x)%Z then 1 else -1) * inject_Z m * 2 ^ e).

(** ** A small concrete instance of the collaborators

    Used only to run the embedding on concrete inputs.  A camera is a 3d
    offset; the "triangulation" of a correspondence adds offsets to the
    observed coordinates. *)
Module Toy.
Definition camera : Type := pt3.

Definition num (c : cell) : Qc :=
  match c with NaN => 0%Qc | Val q => q end.

Definition point (P1 P2 : camera) (o1 o2 : list cell) : pt4 :=
  Pt4 (num (row_get o1 0) + px P1)%Qc
      (num (row_get o1 1) + py P2)%Qc
      (num (row_get o2 0) + num (row_get o2 1))%Qc
      1%Qc.

Definition geodetic (P1 P2 : camera) (o1 o2 : list cell) : pt3 :=
  Pt3 (num (row_get o1 0) + px P1)%Qc
      (num (row_get o2 1) + pz P2)%Qc
      (num (row_get o1 1))%Qc.

#[global] Instance externals : Externals camera := {|
  triangulatePoints P1 P2 pts1 pts2 := Ok (zip_with (point P1 P2) pts1 pts2);
  stereo_corresp_to_xyz P1 P2 pts1 pts2 :=
    Ok (zip_with (geodetic P1 P2) pts1 pts2, (λ _, 0%Qc) <$> pts1);
  latlon_to_ecef_custom lat lon alt := Pt3 lon lat (alt + 1)%Qc;
  float32 := round_to_24_bits
|}.

(** Integers as numbers. *)
Definition q (z : Z) : Qc := Q2Qc (inject_Z z).
Definition v (z : Z) : cell := Val (q z).

(** Three cameras, three tracks.  Track 0 is seen by all cameras, track 1 by
    cameras 0 and 1, track 2 by camera 2 only. *)
Definition C3 : array2 := Array2 3
  [ [v 1;  v 2;  NaN];
    [v 3;  v 4;  NaN];
    [v 5;  v 6;  NaN];
    [v 7;  v 8;  NaN];
    [v 9;  NaN;  v 10];
    [v 11; NaN;  v 12] ].

Definition cams3 : list camera :=
  [Pt3 (q 1) (q 0) (q 0); Pt3 (q 0) (q 2) (q 0); Pt3 (q 0) (q 0) (q 3)].

Definition pairs3 : list (Z * Z) := [(0, 1); (1, 2); (0, 2)]%Z.

(** What [init_pts3d(C3, cams3, "affine", pairs3)] leaves in the two
    accumulators: track 0 is the mean of three values, track 1 has one value,
    track 2 has none. *)
Definition avg3 : list pt3 :=
  [ Pt3 (q 3) (q 5) (Q2Qc (52 # 3));
    Pt3 (q 3) (q 6) (q 14);
    Pt3 (q 0) (q 0) (q 0) ].
Definition count3 : list Qc := [q 3; q 1; q 0].

(** The same with ["rpc"], or with any string that is not one of the two
    linear models. *)
Definition avg3_rpc : list pt3 :=
  [ Pt3 (q 3) (Q2Qc (35 # 3)) (Q2Qc (16 # 3));
    Pt3 (q 3) (q 8) (q 5);
    Pt3 (q 0) (q 0) (q 0) ].

(** Two projection matrices and the observations of one track in both. *)
Definition P_a : matrix :=
  [ [q 1; q 0; q 0; q 0]; [q 0; q 1; q 0; q 0]; [q 0; q 0; q 0; q 1] ].
Definition P_b : matrix :=
  [ [q 0; q 1; q 0; q 1]; [q 0; q 0; q 1; q 0]; [q 0; q 0; q 0; q 1] ].
Definition track_obs : list Qc := [q 1; q 2; q 3; q 4].

(** A stand-in for the decomposition, which returns its argument; the
    statements it is used in are about shapes. *)
Definition vh_of (A : matrix) : matrix := A.

(** The array [A] the multiview function builds for them, and the rows the
    two-view function stacks for the same data. *)
Definition blocks_ab : list matrix :=
  [ [ [q (-1); q 0; q 0; q 1]; [q 0; q (-1); q 0; q 2] ];
    [ [q 0; q (-1); q 0; q 2]; [q 0; q 0; q (-1); q 4] ] ].
Definition rows_ab : matrix :=
  [ [q (-1); q 0; q 0; q 1]; [q 0; q (-1); q 0; q 2];
    [q 0; q (-1); q 0; q 2]; [q 0; q 0; q (-1); q 4] ].

(** A heap that holds [C3] and one unrelated array, and the heap in which a
    call of [init_pts3d] on it ends. *)
Definition heap3 : gmap loc obj :=
  <[2%positive := ArrNum [q 7]]> (<[1%positive := Arr2 C3]> ∅).
Definition heap3_final : gmap loc obj :=
  match init_pts3d_heap 1%positive cams3 "affine" heap3 pairs3 with
  | Ok (h, _) => h
  | Raise _ => ∅
  end.
End Toy.

(** ** [ba_metrics.py]: reprojection errors

    [reprojection_error_from_C], called without an image ([image_fname=None],
    so nothing is opened or plotted).  A projection matrix is a [3 x 4] array,
    held as three rows of four numbers; [pts_gt] is an [N x 2] array.  The
    argument [C] of the source is not used by it.  [np.linalg.norm] takes a
    square root, which is a parameter here. *)

Record pt2 : Type := Pt2 { pu : Qc; pv : Qc }.

Record proj_matrix : Type := ProjMatrix { P_row0 : pt4; P_row1 : pt4; P_row2 : pt4 }.

(** One entry of [P @ np.hstack((pts_3d, ones)).T]: a row of [P] against a
    point with a trailing 1. *)
Definition row_dot (r : pt4) (X : pt3) : Qc :=
  (hx r * px X + hy r * py X + hz r * pz X + hw r * 1)%Qc.

(** One row of [(proj[:2, :] / proj[-1, :]).T].  Where the third coordinate
    is zero numpy gives an infinity or a nan; the quotient here is then not
    what the source has, and a statement that depends on its value carries
    the hypothesis that the third coordinate is not zero. *)
Definition reproject (P : proj_matrix) (X : pt3) : pt2 :=
  Pt2 (row_dot (P_row0 P) X / row_dot (P_row2 P) X)
      (row_dot (P_row1 P) X / row_dot (P_row2 P) X).

(** [a - b] for two arrays of rows: numpy pairs the rows when the arrays have
    the same number of rows, repeats the single row of an array that has one,
    and raises otherwise. *)
Definition np_sub_rows (a b : list pt2) : result (list pt2) :=
  let sub (p g : pt2) := Pt2 (pu p - pu g) (pv p - pv g) in
  if bool_decide (length a = length b) then Ok (zip_with sub a b)
  else match a, b with
       | [p], _ => Ok (sub p <$> b)
       | _, [g] => Ok ((λ p, sub p g) <$> a)
       | _, _ => Raise ValueError
       end.

(** [np.mean(abs(d), axis=1) / 2.0] on one row *)
Definition avg_residual (d : pt2) : Qc :=
  ((Qcabs (pu d) + Qcabs (pv d)) / Q2Qc 2 / Q2Qc 2)%Qc.

Record reprojection_errors : Type := ReprojectionErrors {
  avg_residuals : list Qc;
  err_before : list Qc;
  err_after : list Qc;
  pts_gt_out : list pt2;
  pts_reproj_before : list pt2;
  pts_reproj_after : list pt2
}.

Section Reprojection.
Variable sqrt : Qc → Qc.

(** [np.linalg.norm(d, axis=1)] on one row *)
Definition row_norm (d : pt2) : Qc := sqrt (pu d * pu d + pv d * pv d)%Qc.

Definition reprojection_error_from_C
    (P_before P_after : proj_matrix) (pts_gt : list pt2)
    (pts_3d_before pts_3d_after : list pt3) : result reprojection_errors :=
  let pts_reproj_before := reproject P_before <$> pts_3d_before in
  let pts_reproj_after := reproject P_after <$> pts_3d_after in
  d ← np_sub_rows pts_reproj_after pts_gt;
  let avg_residuals := avg_residual <$> d in
  d ← np_sub_rows pts_reproj_before pts_gt;
  let err_before := row_norm <$> d in
  d ← np_sub_rows pts_reproj_after pts_gt;
  let err_after := row_norm <$> d in
  Ok (ReprojectionErrors avg_residuals err_before err_after pts_gt
        pts_reproj_before pts_reproj_after).
End Reprojection.

(** [s * P] *)
Definition pt4_scale (s : Qc) (r : pt4) : pt4 :=
  Pt4 (s * hx r) (s * hy r) (s * hz r) (s * hw r).
Definition proj_matrix_scale (s : Qc) (P : proj_matrix) : proj_matrix :=
  ProjMatrix (pt4_scale s (P_row0 P)) (pt4_scale s (P_row1 P)) (pt4_scale s (P_row2 P)).

(** ** [ba_metrics.py]: the tiles of [compute_stat_for_specific_date_from_tiles]

    The function reads, writes and deletes files; what is embedded is the
    arithmetic that cuts the [h x w] raster into windows. *)

(** [np.arange(0, stop, step)] on integers: [ceil(stop / step)] values
    [0, step, 2 * step, ...] (none when that number is not positive); numpy
    raises [ZeroDivisionError] on a zero step. *)
Definition np_arange (stop step : Z) : result (list Z) :=
  if bool_decide (step = 0)%Z then Raise ExternalError
  else Ok ((λ k, (Z.of_nat k * step)%Z) <$> seq 0 (Z.to_nat (- ((- stop) `div` step)))).

(** [row + int(m if row + m < h else h - row)] *)
Definition tile_limit (size m row : Z) : Z :=
  (row + (if bool_decide (row + m < size) then m else size - row))%Z.

(** The windows [((row, limit_row), (col, limit_col))] in the order of the two
    nested loops over [y_lims] and [x_lims]. *)
Definition tile_windows (h w m : Z) : result (list ((Z * Z) * (Z * Z))) :=
  y_lims ← np_arange h m;
  x_lims ← np_arange w m;
  Ok (row ← (y_lims : list Z);
      (λ col, ((row, tile_limit h m row), (col, tile_limit w m col)))
        <$> (x_lims : list Z)).

(** A pixel lies in a window: rows [r0 .. r1 - 1], columns [c0 .. c1 - 1]. *)
Definition in_window (win : (Z * Z) * (Z * Z)) (r c : Z) : Prop :=
  (win.1.1 ≤ r < win.1.2 ∧ win.2.1 ≤ c < win.2.2)%Z.

(** ** Sample data for the functions of [ba_metrics.py] *)
Module Samples.
Definition q (z : Z) : Qc := Q2Qc (inject_Z z).

(** A camera looking down the z axis, and the same matrix times 2. *)
Definition P_id : proj_matrix :=
  ProjMatrix (Pt4 (q 1) (q 0) (q 0) (q 0)) (Pt4 (q 0) (q 1) (q 0) (q 0))
             (Pt4 (q 0) (q 0) (q 1) (q 0)).
Definition pts_3d : list pt3 := [Pt3 (q 2) (q 4) (q 2); Pt3 (q 3) (q 6) (q 3)].
Definition pts_gt : list pt2 := [Pt2 (q 1) (q 2); Pt2 (q 1) (q 3)].

(** A stand-in for the square root: the identity. *)
Definition root (x : Qc) : Qc := x.

(** What [reprojection_error_from_C] returns for [P_id] before and after:
    both points reproject to [(1, 2)]; the first is on its ground truth, the
    second is one pixel off. *)
Definition errors : reprojection_errors :=
  ReprojectionErrors [q 0; Q2Qc (1 # 4)] [q 0; q 1] [q 0; q 1] pts_gt
    [Pt2 (q 1) (q 2); Pt2 (q 1) (q 2)] [Pt2 (q 1) (q 2); Pt2 (q 1) (q 2)].

(** One track seen by two cameras of the instance [Toy], at a pixel
    coordinate that is a [float64] but not a [float32]: [2 ^ 24 + 1]. *)
Definition C_wide : array2 := Array2 1
  [ [Val (q 16777217)]; [Val (q 0)]; [Val (q 0)]; [Val (q 0)] ].
Definition cams_wide : list Toy.camera := [pt3_zero; pt3_zero].

(** Two cameras that see no track in common. *)
Definition C_apart : array2 := Array2 2
  [ [Val (q 1); NaN]; [Val (q 2); NaN]; [NaN; Val (q 3)]; [NaN; Val (q 4)] ].

(** The tiles of a [5 x 3] raster for tile size 2. *)
Definition grid_5_3 : list ((Z * Z) * (Z * Z)) :=
  [ ((0, 2), (0, 2)); ((0, 2), (2, 3)); ((2, 4), (0, 2)); ((2, 4), (2, 3));
    ((4, 5), (0, 2)); ((4, 5), (2, 3)) ]%Z.
End Samples.

(** ** Decidable equality, to compare concrete results by evaluation *)

#[global] Instance exn_eq_dec : EqDecision exn.
Proof. solve_decision. Defined.
#[global] Instance result_eq_dec {A} `{EqDecision A} : EqDecision (result A).
Proof. solve_decision. Defined.
#[global] Instance cell_eq_dec : EqDecision cell.
Proof. solve_decision. Defined.
#[global] Instance pt3_eq_dec : EqDecision pt3.
Proof. solve_decision. Defined.
#[global] Instance array2_eq_dec : EqDecision array2.
Proof. solve_decision. Defined.
#[global] Instance obj_eq_dec : EqDecision obj.
Proof. solve_decision. Defined.
#[global] Instance pt2_eq_dec : EqDecision pt2.
Proof. solve_decision. Defined.
#[global] Instance reprojection_errors_eq_dec : EqDecision reprojection_errors.
Proof. solve_decision. Defined.

(* ===================================================================== *)
(** * Part II: properties *)
(* ===================================================================== *)

(** ** The result monad *)

Lemma bind_Ok {A B} (f : A → result B) (m : result A) (b : B) :
  m ≫= f = Ok b ↔ ∃ a, m = Ok a ∧ f a = Ok b.
Proof.
  destruct m as [a|e]; simpl.
  - split; [eauto | intros (a' & [= <-] & ?); done].
  - split; [done | intros (a' & ? & ?); done].
Qed.

Lemma fmap_Ok {A B} (f : A → B) (m : result A) (b : B) :
  f <$> m = Ok b ↔ ∃ a, m = Ok a ∧ b = f a.
Proof.
  destruct m as [a|e]; simpl.
  - split; [intros [= <-]; eauto | intros (a' & [= <-] & ->); done].
  - split; [done | intros (a' & ? & ?); done].
Qed.

Lemma for_each_app {St X} (body : St → X → result St) s xs ys :
  for_each body s (xs ++ ys) = for_each body s xs ≫= λ s', for_each body s' ys.
Proof.
  revert s; induction xs as [|x xs IH]; intros s; simpl; [done|].
  destruct (body s x) as [s'|e]; simpl; [apply IH | done].
Qed.

(** ** Python indexing *)

Lemma py_index_lt n i k : py_index n i = Ok k → k < n.
Proof.
  unfold py_index. repeat case_bool_decide; intros [= <-]; lia.
Qed.

Lemma py_getitem_Ok {A} (l : list A) i x :
  py_getitem l i = Ok x → ∃ k, py_index (length l) i = Ok k ∧ l !! k = Some x.
Proof.
  unfold py_getitem. intros (k & Hk & Hx)%bind_Ok. exists k; split; [done|].
  destruct (l !! k); simpl in Hx; congruence.
Qed.

Lemma py_getitem_elem_of {A} (l : list A) i x : py_getitem l i = Ok x → x ∈ l.
Proof.
  intros (k & _ & Hk)%py_getitem_Ok. by eapply list_elem_of_lookup_2.
Qed.

(** A negative index not below [-n] reads position [n + i]; below [-n] it
    raises. *)
Lemma py_getitem_negative {A} (l : list A) (i : Z) :
  (i < 0)%Z →
  py_getitem l i =
    if bool_decide (- Z.of_nat (length l) ≤ i)%Z
    then from_option Ok (Raise IndexError) (l !! Z.to_nat (Z.of_nat (length l) + i))
    else Raise IndexError.
Proof.
  intros Hi. unfold py_getitem, py_index.
  rewrite bool_decide_eq_false_2 by lia.
  case_bool_decide; case_bool_decide; try lia; done.
Qed.

(** ** [np.where] *)

Lemma elem_of_where_from k b i :
  i ∈ where_from k b ↔ ∃ j, i = k + j ∧ b !! j = Some true.
Proof.
  revert k; induction b as [|x b IH]; intros k; simpl.
  - split; [by intros ?%elem_of_nil | by intros (j & _ & ?)].
  - destruct x; rewrite ?elem_of_cons, IH; split.
    + intros [->|(j & -> & Hj)]; [exists 0; split; [lia|done]|].
      exists (S j). split; [lia|done].
    + intros ([|j] & -> & Hj); [left; lia|]. right. exists j. split; [lia|done].
    + intros (j & -> & Hj). exists (S j). split; [lia|done].
    + intros ([|j] & -> & Hj); [done|]. exists j. split; [lia|done].
Qed.

Lemma where_from_NoDup k b : NoDup (where_from k b).
Proof.
  revert k; induction b as [|x b IH]; intros k; simpl; [constructor|].
  destruct x; [|apply IH]. constructor; [|apply IH].
  intros (j & ? & _)%elem_of_where_from. lia.
Qed.

Lemma elem_of_np_where b i : i ∈ np_where b ↔ b !! i = Some true.
Proof.
  unfold np_where. rewrite elem_of_where_from. split.
  - intros (j & -> & ?). done.
  - intros ?. exists i. done.
Qed.

Lemma np_where_NoDup b : NoDup (np_where b).
Proof. apply where_from_NoDup. Qed.

Lemma np_where_lt b : Forall (λ i, i < length b) (np_where b).
Proof.
  apply Forall_forall. intros i Hi%elem_of_np_where. by eapply lookup_lt_Some.
Qed.

(** ** Reading and writing through an index array *)

Lemma np_take_in_range {A} (d : A) (a : list A) (idx : list nat) :
  Forall (λ i, i < length a) idx →
  np_take a idx = Ok ((λ i, default d (a !! i)) <$> idx).
Proof.
  induction 1 as [|i idx Hi _ IH]; simpl; [done|].
  destruct (lookup_lt_is_Some_2 a i Hi) as [x ->]. simpl.
  by rewrite IH.
Qed.

Lemma np_put_length {A} (a : list A) idx vs : length (np_put a idx vs) = length a.
Proof.
  unfold np_put. revert a. induction (zip idx vs) as [|[i v] l IH]; intros a;
    simpl; [done|]. by rewrite IH, length_insert.
Qed.

(** When the value written at each index is a function of the index, the
    order of the writes does not matter. *)
Lemma np_put_lookup {A} (f : nat → A) (a : list A) (idx : list nat) (i : nat) :
  Forall (λ i, i < length a) idx →
  np_put a idx (f <$> idx) !! i = if bool_decide (i ∈ idx) then Some (f i) else a !! i.
Proof.
  unfold np_put. revert a. induction idx as [|j idx IH]; intros a Hidx; simpl.
  - done.
  - apply Forall_cons in Hidx as [Hj Hidx].
    rewrite IH by (by rewrite length_insert).
    destruct (decide (i ∈ idx)) as [Hin|Hin].
    + rewrite !bool_decide_eq_true_2; [done| |done]. by right.
    + rewrite (bool_decide_eq_false_2 (i ∈ idx)) by done.
      destruct (decide (i = j)) as [->|Hne].
      * rewrite bool_decide_eq_true_2 by left.
        by rewrite list_lookup_insert_eq.
      * rewrite bool_decide_eq_false_2.
        -- by rewrite list_lookup_insert_ne.
        -- intros [?|?]%elem_of_cons; done.
Qed.

(** Distinct indices: position [j] of the values lands at index [idx !! j]. *)
Lemma np_put_lookup_NoDup {A} (a : list A) (idx : list nat) (vs : list A) j i v :
  NoDup idx → Forall (λ i, i < length a) idx →
  idx !! j = Some i → vs !! j = Some v →
  np_put a idx vs !! i = Some v.
Proof.
  unfold np_put. revert a vs j. induction idx as [|k idx IH]; intros a vs j Hnd Hidx Hi Hv.
  - done.
  - destruct vs as [|w vs]; [done|]. simpl.
    apply NoDup_cons in Hnd as [Hk Hnd]. apply Forall_cons in Hidx as [Hka Hidx].
    destruct j as [|j]; simpl in *.
    + injection Hi as ->. injection Hv as ->.
      assert (Hgen : ∀ (l : list (nat * A)) (b : list A),
        i ∉ l.*1 → foldl (λ acc iv, <[iv.1 := iv.2]> acc) b l !! i = b !! i).
      { induction l as [|[i' v'] l IHl]; intros b Hni; simpl; [done|].
        rewrite IHl.
        - apply list_lookup_insert_ne. intros ->. apply Hni. simpl. left.
        - intros ?. apply Hni. simpl. by right. }
      rewrite Hgen.
      * by apply list_lookup_insert_eq.
      * intros Hin. apply Hk.
        apply list_elem_of_fmap in Hin as ([i' v'] & -> & Hin).
        apply elem_of_zip_l in Hin. done.
    + eapply IH; eauto. by rewrite length_insert.
Qed.

Lemma np_setitem_length {A} (a : list A) idx vs a' :
  np_setitem a idx vs = Ok a' → length a' = length a.
Proof.
  unfold np_setitem. destruct (negb _); [done|].
  case_bool_decide; [intros [= <-]; apply np_put_length|].
  destruct vs as [|v [|]]; try done. intros [= <-]; apply np_put_length.
Qed.

Lemma forallb_lt_true n (idx : list nat) :
  Forall (λ i, i < n) idx → forallb (λ i, i <? n) idx = true.
Proof.
  intros H. apply forallb_forall. intros i Hi%list_elem_of_In.
  apply Nat.ltb_lt. by eapply Forall_forall in H.
Qed.

Lemma np_setitem_fmap {A} (f : nat → A) (a : list A) (idx : list nat) :
  Forall (λ i, i < length a) idx →
  np_setitem a idx (f <$> idx) = Ok (np_put a idx (f <$> idx)).
Proof.
  intros H. unfold np_setitem. rewrite forallb_lt_true by done. simpl.
  by rewrite bool_decide_eq_true_2 by apply length_fmap.
Qed.

Lemma zip_with_fmap3 {A B D E X} (f : A → B * D → E)
    (g : X → A) (h : X → B) (k : X → D) (l : list X) :
  zip_with f (g <$> l) (zip (h <$> l) (k <$> l)) = (λ x, f (g x) (h x, k x)) <$> l.
Proof. induction l as [|x l IH]; csimpl; [done|]. by f_equal. Qed.

(** ** The running mean, one index at a time *)

Lemma update_avg_pts3d_in_range (avg : list pt3) (count : list Qc)
    (new_v : list pt3) (t : list nat) :
  length count = length avg → length new_v = length avg →
  Forall (λ i, i < length avg) t →
  ∃ avg' count',
    update_avg_pts3d avg count new_v t = Ok (avg', count') ∧
    length avg' = length avg ∧ length count' = length count ∧
    ∀ i, i < length avg →
      count' !! i = (if bool_decide (i ∈ t)
                     then Some (default 0 (count !! i) + 1)
                     else count !! i)%Qc ∧
      avg' !! i = (if bool_decide (i ∈ t)
                   then Some (running_mean (default 0 (count !! i) + 1)
                                (default pt3_zero (avg !! i))
                                (default pt3_zero (new_v !! i)))
                   else avg !! i)%Qc.
Proof.
  intros Hc Hn Ht. unfold update_avg_pts3d.
  assert (Htc : Forall (λ i, i < length count) t) by (by rewrite Hc).
  assert (Htn : Forall (λ i, i < length new_v) t) by (by rewrite Hn).
  rewrite (np_take_in_range 0%Qc) by done. simpl.
  rewrite <-list_fmap_compose.
  rewrite np_setitem_fmap by done. simpl.
  set (count' := np_put count t _).
  assert (Hlen' : length count' = length count) by apply np_put_length.
  rewrite (np_take_in_range 0%Qc count') by (by rewrite Hlen'). simpl.
  rewrite (np_take_in_range pt3_zero avg) by done. simpl.
  rewrite (np_take_in_range pt3_zero new_v) by done. simpl.
  rewrite zip_with_fmap3.
  rewrite np_setitem_fmap by done. simpl.
  eexists _, _. split; [done|]. split; [apply np_put_length|]. split; [done|].
  intros i Hi. split.
  - subst count'. by rewrite np_put_lookup.
  - rewrite np_put_lookup by done. case_bool_decide as Hin; [|done].
    subst count'. rewrite np_put_lookup by done.
    by rewrite bool_decide_eq_true_2.
Qed.

(** ** Arithmetic of the mean *)

Lemma count_of_0 : count_of 0 = 0%Qc.
Proof. reflexivity. Qed.

Lemma count_of_S n : count_of (S n) = (count_of n + 1)%Qc.
Proof.
  unfold count_of. apply Qc_is_canon. simpl. rewrite !Qred_correct.
  rewrite Nat2Z.inj_succ. unfold Z.succ. rewrite inject_Z_plus. reflexivity.
Qed.

Lemma count_of_S_nonzero n : count_of (S n) ≠ 0%Qc.
Proof.
  unfold count_of. intros H%Q2Qc_eq_iff.
  unfold Qeq, inject_Z in H. simpl in H. lia.
Qed.

Lemma pt3_sum_snoc l v : pt3_sum (l ++ [v]) = pt3_add (pt3_sum l) v.
Proof.
  induction l as [|x l IH]; simpl.
  - unfold pt3_add; destruct v; simpl. f_equal; ring.
  - rewrite IH. unfold pt3_add; simpl. f_equal; ring.
Qed.

(** With count 1 the update returns the new value. *)
Lemma running_mean_first (v : pt3) : running_mean 1 pt3_zero v = v.
Proof.
  destruct v as [a b c].
  unfold running_mean, pt3_div, pt3_add, pt3_scale, pt3_zero; cbn [px py pz].
  f_equal; field; done.
Qed.

Lemma mean_singleton (v : pt3) : mean [v] = v.
Proof.
  change (mean [v]) with (pt3_div (pt3_add v pt3_zero) (count_of 1)).
  rewrite (count_of_S 0), count_of_0. destruct v as [a b c].
  unfold pt3_div, pt3_add, pt3_zero; cbn [px py pz].
  f_equal; field; done.
Qed.

Lemma running_mean_mean (l : list pt3) (v : pt3) :
  running_mean (count_of (length l) + 1) (mean l) v = mean (l ++ [v]).
Proof.
  destruct l as [|x l].
  - change (length (@nil pt3)) with 0. rewrite count_of_0.
    change (mean []) with pt3_zero. change (mean ([] ++ [v])) with (pt3_div (pt3_add v pt3_zero) (count_of 1)).
    rewrite (count_of_S 0), count_of_0.
    destruct v as [a b c].
    unfold running_mean, pt3_div, pt3_add, pt3_scale, pt3_zero; cbn [px py pz].
    f_equal; field; done.
  - change (mean ((x :: l) ++ [v]))
      with (pt3_div (pt3_sum ((x :: l) ++ [v])) (count_of (length ((x :: l) ++ [v])))).
    change (length (x :: l)) with (S (length l)).
    rewrite pt3_sum_snoc.
    replace (length ((x :: l) ++ [v])) with (S (S (length l)))
      by (rewrite length_app; simpl; lia).
    change (mean (x :: l)) with (pt3_div (pt3_sum (x :: l)) (count_of (S (length l)))).
    rewrite (count_of_S (S (length l))).
    pose proof (count_of_S_nonzero (length l)) as Hc.
    pose proof (count_of_S_nonzero (S (length l))) as Hc'.
    rewrite (count_of_S (S (length l))) in Hc'.
    generalize dependent (count_of (S (length l))). intros c Hc Hc'.
    generalize (pt3_sum (x :: l)). intros [sx sy sz]. destruct v as [a b d].
    unfold running_mean, pt3_div, pt3_add, pt3_scale; cbn [px py pz].
    f_equal; field; done.
Qed.

(** ** The aggregator *)

Section AggregatorProperties.
Context {camera : Type} `{!Externals camera}.
Variable C : array2.
Variable cameras : list camera.
Variable cam_model : string.

Lemma mask_row_length (m : list bool) : m ∈ mask C → length m = n_pts C.
Proof.
  unfold mask. intros (r & -> & _)%list_elem_of_fmap.
  by rewrite length_fmap, length_seq.
Qed.

Lemma pair_triangulation_Some pair idx pts :
  pair_triangulation C cameras cam_model pair = Ok (Some (idx, pts)) →
  ∃ mask_i mask_j,
    in_range C pair.1 pair.2 = true ∧
    py_getitem (mask C) pair.1 = Ok mask_i ∧
    py_getitem (mask C) pair.2 = Ok mask_j ∧
    idx = np_where (zip_with andb mask_i mask_j) ∧
    triangulate_pair cameras cam_model pair.1 pair.2
      (obs2d C pair.1 idx) (obs2d C pair.2 idx) = Ok pts.
Proof.
  destruct pair as [c_i c_j]. unfold pair_triangulation. simpl.
  destruct (in_range C c_i c_j); [|done].
  destruct (py_getitem (mask C) c_i) as [mask_i|]; [|done].
  destruct (py_getitem (mask C) c_j) as [mask_j|]; [|done]. simpl.
  case_bool_decide; [done|].
  destruct (triangulate_pair _ _ _ _ _ _) as [pts'|] eqn:Htri; [|done]. simpl.
  intros [= <- <-]. eauto 10.
Qed.

Lemma pair_triangulation_indices pair idx pts :
  pair_triangulation C cameras cam_model pair = Ok (Some (idx, pts)) →
  NoDup idx ∧ Forall (λ i, i < n_pts C) idx.
Proof.
  intros (mask_i & mask_j & _ & Hi & Hj & -> & _)%pair_triangulation_Some.
  split; [apply np_where_NoDup|].
  eapply Forall_impl; [apply np_where_lt|]. intros i. simpl.
  rewrite length_zip_with.
  apply py_getitem_elem_of, mask_row_length in Hi. lia.
Qed.

Lemma pair_new_values_Some pair idx new_values :
  pair_new_values C cameras cam_model pair = Ok (Some (idx, new_values)) →
  ∃ pts, pair_triangulation C cameras cam_model pair = Ok (Some (idx, pts)) ∧
         np_setitem (np_zeros3 (n_pts C)) idx (pt3_float32 <$> pts) = Ok new_values.
Proof.
  unfold pair_new_values.
  destruct (pair_triangulation C cameras cam_model pair) as [[[idx' pts]|]|];
    simpl; [|done..].
  destruct (np_setitem _ _ _) as [nv|] eqn:Hset; simpl; [|done].
  intros [= <- <-]. eauto.
Qed.

Lemma pair_new_values_shape pair idx new_values :
  pair_new_values C cameras cam_model pair = Ok (Some (idx, new_values)) →
  length new_values = n_pts C ∧ NoDup idx ∧ Forall (λ i, i < n_pts C) idx.
Proof.
  intros (pts & Htri & Hset)%pair_new_values_Some.
  apply np_setitem_length in Hset. unfold np_zeros3 in Hset.
  rewrite length_replicate in Hset.
  split; [done|]. by eapply pair_triangulation_indices.
Qed.

(** The loop body is the state-independent part followed by the update. *)
Lemma loop_body_unfold (acc : list pt3 * list Qc) (pair : Z * Z) :
  loop_body C cameras cam_model acc pair =
    r ← pair_new_values C cameras cam_model pair;
    match r with
    | None => Ok acc
    | Some (idx, new_values) => update_avg_pts3d acc.1 acc.2 new_values idx
    end.
Proof.
  destruct acc as [avg cnt], pair as [c_i c_j].
  unfold loop_body, pair_new_values, pair_triangulation. simpl.
  destruct (in_range C c_i c_j); [|done].
  destruct (py_getitem (mask C) c_i) as [mask_i|]; [|done].
  destruct (py_getitem (mask C) c_j) as [mask_j|]; [|done]. simpl.
  case_bool_decide; [done|].
  destruct (triangulate_pair _ _ _ _ _ _) as [pts'|]; [|done]. simpl.
  destruct (np_setitem _ _ _) as [nv|]; done.
Qed.
Lemma contribution_unfold t pair :
  contribution C cameras cam_model t pair =
    match pair_new_values C cameras cam_model pair with
    | Ok (Some (idx, new_values)) =>
        if bool_decide (t ∈ idx) then new_values !! t else None
    | _ => None
    end.
Proof. done. Qed.

(** One iteration: a track the pair contributes [v] to has its count
    incremented and its average replaced by the running mean; every other
    track keeps both. *)
Lemma loop_body_step (acc acc' : list pt3 * list Qc) (pair : Z * Z) :
  length acc.1 = n_pts C → length acc.2 = n_pts C →
  loop_body C cameras cam_model acc pair = Ok acc' →
  length acc'.1 = n_pts C ∧ length acc'.2 = n_pts C ∧
  ∀ t, t < n_pts C →
    match contribution C cameras cam_model t pair with
    | Some v =>
        acc'.2 !! t = Some (default 0 (acc.2 !! t) + 1)%Qc ∧
        acc'.1 !! t = Some (running_mean (default 0 (acc.2 !! t) + 1)%Qc
                              (default pt3_zero (acc.1 !! t)) v)
    | None => acc'.2 !! t = acc.2 !! t ∧ acc'.1 !! t = acc.1 !! t
    end.
Proof.
  intros Ha Hc. rewrite loop_body_unfold.
  intros ([[idx nv]|] & Hnv & Hupd)%bind_Ok.
  - destruct (pair_new_values_shape _ _ _ Hnv) as (Hlen & _ & Hidx).
    destruct (update_avg_pts3d_in_range acc.1 acc.2 nv idx)
      as (avg' & count' & Hupd' & Hla & Hlc & Hpt); [congruence..| |].
    { by rewrite Ha. }
    rewrite Hupd' in Hupd. injection Hupd as <-. simpl.
    split; [congruence|]. split; [congruence|].
    intros t Ht. rewrite contribution_unfold, Hnv.
    destruct (Hpt t) as [Hct Hat]; [by rewrite Ha|].
    case_bool_decide.
    + destruct (lookup_lt_is_Some_2 nv t) as [v Hv]; [by rewrite Hlen|].
      rewrite Hv in Hat |- *. done.
    + done.
  - injection Hupd as <-. split; [done|]. split; [done|].
    intros t _. by rewrite contribution_unfold, Hnv.
Qed.

Lemma estimates_cons pair pairs t :
  estimates C cameras cam_model (pair :: pairs) t =
    option_list (contribution C cameras cam_model t pair)
      ++ estimates C cameras cam_model pairs t.
Proof.
  unfold estimates. simpl.
  by destruct (contribution C cameras cam_model t pair).
Qed.

Lemma estimates_app pairs1 pairs2 t :
  estimates C cameras cam_model (pairs1 ++ pairs2) t =
    estimates C cameras cam_model pairs1 t ++ estimates C cameras cam_model pairs2 t.
Proof. apply omap_app. Qed.

(** The loop invariant: every entry is the mean of what was folded in so
    far, and the count is how many values that is. *)
Lemma for_each_loop_body_mean (pairs : list (Z * Z)) :
  ∀ (acc acc' : list pt3 * list Qc) (ests : nat → list pt3),
  length acc.1 = n_pts C → length acc.2 = n_pts C →
  (∀ t, t < n_pts C →
     acc.2 !! t = Some (count_of (length (ests t))) ∧
     acc.1 !! t = Some (mean (ests t))) →
  for_each (loop_body C cameras cam_model) acc pairs = Ok acc' →
  length acc'.1 = n_pts C ∧ length acc'.2 = n_pts C ∧
  ∀ t, t < n_pts C →
    acc'.2 !! t =
      Some (count_of (length (ests t ++ estimates C cameras cam_model pairs t))) ∧
    acc'.1 !! t = Some (mean (ests t ++ estimates C cameras cam_model pairs t)).
Proof.
  induction pairs as [|pair pairs IH]; intros acc acc' ests Ha Hc Hinv Hrun;
    simpl in Hrun.
  - injection Hrun as <-. split; [done|]. split; [done|].
    intros t Ht. unfold estimates; simpl. rewrite app_nil_r. by apply Hinv.
  - apply bind_Ok in Hrun as (acc1 & Hstep & Hrest).
    destruct (loop_body_step _ _ _ Ha Hc Hstep) as (Ha1 & Hc1 & Hpt).
    destruct (IH acc1 acc'
                (λ t, ests t ++ option_list (contribution C cameras cam_model t pair))
                Ha1 Hc1) as (Ha' & Hc' & Hfin); [|done|].
    + intros t Ht. specialize (Hpt t Ht). destruct (Hinv t Ht) as [Hct Hat].
      destruct (contribution C cameras cam_model t pair) as [v|]; simpl.
      * destruct Hpt as [-> ->]. rewrite Hct, Hat. simpl.
        rewrite running_mean_mean, length_app, Nat.add_comm. simpl.
        by rewrite count_of_S.
      * destruct Hpt as [-> ->]. by rewrite app_nil_r.
    + split; [done|]. split; [done|].
      intros t Ht. rewrite estimates_cons, app_assoc. by apply Hfin.
Qed.

Lemma np_zeros3_lookup n t : t < n → np_zeros3 n !! t = Some pt3_zero.
Proof. intros. by apply lookup_replicate_2. Qed.

Lemma np_zeros_lookup n t : t < n → np_zeros n !! t = Some 0%Qc.
Proof. intros. by apply lookup_replicate_2. Qed.

Lemma aggregate_mean (pairs : list (Z * Z)) (avg : list pt3) (count : list Qc) :
  aggregate C cameras cam_model pairs = Ok (avg, count) →
  length avg = n_pts C ∧ length count = n_pts C ∧
  ∀ t, t < n_pts C →
    count !! t = Some (count_of (length (estimates C cameras cam_model pairs t))) ∧
    avg !! t = Some (mean (estimates C cameras cam_model pairs t)).
Proof.
  unfold aggregate. intros Hrun.
  apply (for_each_loop_body_mean pairs _ _ (λ _, [])) in Hrun; simpl.
  - done.
  - apply length_replicate.
  - apply length_replicate.
  - intros t Ht. by rewrite np_zeros3_lookup, np_zeros_lookup.
Qed.
End AggregatorProperties.

(** ** Which pairs contribute, and when the loop returns *)

Section AggregatorRuns.
Context {camera : Type} `{!Externals camera}.
Variable C : array2.
Variable cameras : list camera.
Variable cam_model : string.

Lemma lookup_zip_with_andb (a b : list bool) (t : nat) :
  zip_with andb a b !! t = Some true ↔ a !! t = Some true ∧ b !! t = Some true.
Proof.
  rewrite lookup_zip_with.
  destruct (a !! t) as [[]|], (b !! t) as [[]|]; simpl; intuition congruence.
Qed.

(** A pair that contributes to a track is in range and both its cameras
    observe the track. *)
Lemma contribution_co_observed t pair v :
  contribution C cameras cam_model t pair = Some v → co_observed C t pair = true.
Proof.
  rewrite contribution_unfold.
  destruct (pair_new_values C cameras cam_model pair) as [[[idx nv]|]|] eqn:Hnv;
    [|done..].
  case_bool_decide as Hin; [|done]. intros _.
  apply pair_new_values_Some in Hnv as (pts & Htri & _).
  apply pair_triangulation_Some in Htri as (mi & mj & Hr & Hi & Hj & -> & _).
  destruct pair as [c_i c_j]; simpl in *. unfold co_observed.
  rewrite Hr, Hi, Hj. simpl.
  apply elem_of_np_where, lookup_zip_with_andb in Hin as [-> ->].
  by rewrite !bool_decide_eq_true_2.
Qed.

(** Conversely, when the pair's own computation does not raise. *)
Lemma co_observed_contribution t pair :
  t < n_pts C →
  is_ok (pair_new_values C cameras cam_model pair) = true →
  co_observed C t pair = true →
  is_Some (contribution C cameras cam_model t pair).
Proof.
  intros Ht Hok Hco. rewrite contribution_unfold.
  destruct pair as [c_i c_j]. unfold co_observed in Hco.
  apply andb_true_iff in Hco as [Hr Hco].
  destruct (py_getitem (mask C) c_i) as [mi|] eqn:Hi; [|done].
  destruct (py_getitem (mask C) c_j) as [mj|] eqn:Hj; [|done].
  apply andb_true_iff in Hco as [Hti%bool_decide_eq_true Htj%bool_decide_eq_true].
  assert (Hin : t ∈ np_where (zip_with andb mi mj)).
  { apply elem_of_np_where, lookup_zip_with_andb. done. }
  destruct (pair_new_values C cameras cam_model (c_i, c_j)) as [[[idx nv]|]|] eqn:Hnv;
    [| |done].
  - destruct (pair_new_values_shape _ _ _ _ _ _ Hnv) as (Hlen & _).
    apply pair_new_values_Some in Hnv as (pts & Htri & _).
    apply pair_triangulation_Some in Htri as (mi' & mj' & _ & Hi' & Hj' & -> & _).
    simpl in *. rewrite Hi in Hi'. rewrite Hj in Hj'.
    injection Hi' as <-. injection Hj' as <-.
    rewrite bool_decide_eq_true_2 by done.
    apply lookup_lt_is_Some_2. by rewrite Hlen.
  - exfalso. unfold pair_new_values, pair_triangulation in Hnv.
    rewrite Hr, Hi, Hj in Hnv. simpl in Hnv.
    case_bool_decide as Hnil.
    + apply nil_length_inv in Hnil. rewrite Hnil in Hin. by apply elem_of_nil in Hin.
    + destruct (triangulate_pair _ _ _ _ _ _); simpl in Hnv; [|done].
      destruct (np_setitem _ _ _); simpl in Hnv; done.
Qed.

(** The loop returns exactly when no pair raises on its own. *)
Lemma for_each_loop_body_Ok (pairs : list (Z * Z)) :
  ∀ acc : list pt3 * list Qc,
  length acc.1 = n_pts C → length acc.2 = n_pts C →
  is_ok (for_each (loop_body C cameras cam_model) acc pairs) =
    forallb (λ p, is_ok (pair_new_values C cameras cam_model p)) pairs.
Proof.
  induction pairs as [|pair pairs IH]; intros acc Ha Hc; simpl; [done|].
  destruct (loop_body C cameras cam_model acc pair) as [acc1|e] eqn:Hstep; simpl.
  - destruct (loop_body_step _ _ _ _ _ _ Ha Hc Hstep) as (Ha1 & Hc1 & _).
    rewrite IH by done. rewrite loop_body_unfold in Hstep.
    by destruct (pair_new_values C cameras cam_model pair).
  - rewrite loop_body_unfold in Hstep.
    destruct (pair_new_values C cameras cam_model pair) as [[[idx nv]|]|] eqn:Hnv;
      simpl in *; [|done..].
    destruct (pair_new_values_shape _ _ _ _ _ _ Hnv) as (Hlen & _ & Hidx).
    destruct (update_avg_pts3d_in_range acc.1 acc.2 nv idx)
      as (avg' & count' & Hupd' & _); [congruence..| |congruence].
    by rewrite Ha.
Qed.

Lemma aggregate_is_ok (pairs : list (Z * Z)) :
  is_ok (aggregate C cameras cam_model pairs) =
    forallb (λ p, is_ok (pair_new_values C cameras cam_model p)) pairs.
Proof. apply for_each_loop_body_Ok; apply length_replicate. Qed.

Lemma aggregate_Ok_pair pairs acc pair :
  aggregate C cameras cam_model pairs = Ok acc → pair ∈ pairs →
  is_ok (pair_new_values C cameras cam_model pair) = true.
Proof.
  intros Hrun Hin. pose proof (aggregate_is_ok pairs) as Hok.
  rewrite Hrun in Hok. simpl in Hok. symmetry in Hok.
  rewrite forallb_forall in Hok. by apply Hok, list_elem_of_In.
Qed.

Lemma init_pts3d_Ok pairs avg :
  init_pts3d C cameras cam_model pairs = Ok avg ↔
  ∃ count, aggregate C cameras cam_model pairs = Ok (avg, count).
Proof.
  unfold init_pts3d. rewrite fmap_Ok. split.
  - intros ([avg' count] & Hrun & ->). eauto.
  - intros (count & Hrun). eauto.
Qed.

Lemma omap_filter_Forall2 {A B} (f : A → option B) (P : A → bool) (l : list A) :
  (∀ x, x ∈ l → is_Some (f x) ↔ P x = true) →
  Forall2 (λ v x, f x = Some v) (omap f l) (filter (λ x, P x = true) l).
Proof.
  induction l as [|x l IH]; intros HP; [constructor|].
  rewrite filter_cons. csimpl.
  assert (Hl : ∀ y, y ∈ l → is_Some (f y) ↔ P y = true).
  { intros y Hy. apply HP. by right. }
  specialize (HP x (list_elem_of_here _ _)).
  destruct (decide (P x = true)) as [Hx|Hx].
  - apply HP in Hx as [v Hv]. rewrite Hv. constructor; [done|by apply IH].
  - destruct (f x) eqn:Hfx; [|by apply IH].
    exfalso. apply Hx, HP. eauto.
Qed.

(** In a run that returns, the values folded into a track are those of the
    pairs that co-observe it, one each, in list order. *)
Lemma estimates_co_observed pairs acc t :
  aggregate C cameras cam_model pairs = Ok acc → t < n_pts C →
  Forall2 (λ v p, contribution C cameras cam_model t p = Some v)
          (estimates C cameras cam_model pairs t)
          (filter (λ p, co_observed C t p = true) pairs).
Proof.
  intros Hrun Ht. apply omap_filter_Forall2. intros p Hp. split.
  - intros [v Hv]. by eapply contribution_co_observed.
  - apply co_observed_contribution; [done|]. by eapply aggregate_Ok_pair.
Qed.

Lemma estimates_not_observed pairs t :
  Forall (λ p, co_observed C t p = false) pairs →
  estimates C cameras cam_model pairs t = [].
Proof.
  unfold estimates. induction 1 as [|p ps Hp _ IH]; [done|].
  csimpl. destruct (contribution C cameras cam_model t p) as [v|] eqn:Hv; [|done].
  apply contribution_co_observed in Hv. congruence.
Qed.

(** ** The mean does not depend on the order *)

Lemma pt3_add_comm a b : pt3_add a b = pt3_add b a.
Proof. unfold pt3_add. f_equal; ring. Qed.

Lemma pt3_add_assoc a b c : pt3_add a (pt3_add b c) = pt3_add (pt3_add a b) c.
Proof. unfold pt3_add; simpl. f_equal; ring. Qed.

Lemma pt3_sum_Permutation l l' : l ≡ₚ l' → pt3_sum l = pt3_sum l'.
Proof.
  induction 1 as [|x l l' _ IH|x y l|l l' l'' _ IH1 _ IH2]; simpl.
  - done.
  - by rewrite IH.
  - by rewrite !pt3_add_assoc, (pt3_add_comm y x).
  - congruence.
Qed.

Lemma mean_Permutation l l' : l ≡ₚ l' → mean l = mean l'.
Proof.
  intros Hp. destruct l as [|x l], l' as [|x' l'].
  - done.
  - by apply Permutation_nil_l in Hp.
  - by apply Permutation_nil_r in Hp.
  - unfold mean. by rewrite (pt3_sum_Permutation _ _ Hp), (Permutation_length Hp).
Qed.

Lemma estimates_Permutation pairs pairs' t :
  pairs ≡ₚ pairs' →
  estimates C cameras cam_model pairs t ≡ₚ estimates C cameras cam_model pairs' t.
Proof. intros Hp. unfold estimates. by rewrite Hp. Qed.

Lemma aggregate_Permutation pairs pairs' avg count :
  pairs ≡ₚ pairs' →
  aggregate C cameras cam_model pairs = Ok (avg, count) →
  aggregate C cameras cam_model pairs' = Ok (avg, count).
Proof.
  intros Hp Hrun.
  destruct (aggregate C cameras cam_model pairs') as [[avg' count']|e] eqn:Hrun'.
  - destruct (aggregate_mean _ _ _ _ _ _ Hrun) as (Ha & Hc & Hpt).
    destruct (aggregate_mean _ _ _ _ _ _ Hrun') as (Ha' & Hc' & Hpt').
    f_equal. f_equal; apply list_eq; intros t.
    + destruct (decide (t < n_pts C)) as [Ht|Ht].
      * destruct (Hpt t Ht) as [_ ->]. destruct (Hpt' t Ht) as [_ ->].
        f_equal. apply mean_Permutation. by apply estimates_Permutation.
      * rewrite !lookup_ge_None_2; [done|lia..].
    + destruct (decide (t < n_pts C)) as [Ht|Ht].
      * destruct (Hpt t Ht) as [-> _]. destruct (Hpt' t Ht) as [-> _].
        do 2 f_equal. apply Permutation_length. by apply estimates_Permutation.
      * rewrite !lookup_ge_None_2; [done|lia..].
  - exfalso. pose proof (aggregate_is_ok pairs) as Hok.
    pose proof (aggregate_is_ok pairs') as Hok'.
    rewrite Hrun in Hok. rewrite Hrun' in Hok'. simpl in *.
    symmetry in Hok. rewrite forallb_forall in Hok.
    assert (forallb (λ p, is_ok (pair_new_values C cameras cam_model p)) pairs' = true)
      as Hall; [|congruence].
    apply forallb_forall. intros p Hin%list_elem_of_In. apply Hok, list_elem_of_In.
    by rewrite Hp.
Qed.

(** ** A pair with an index not below [n_cam] *)

Lemma in_range_false c_i c_j :
  (Z.of_nat (n_cam C) ≤ c_i ∨ Z.of_nat (n_cam C) ≤ c_j)%Z →
  in_range C c_i c_j = false.
Proof.
  intros Hge. unfold in_range. apply andb_false_iff.
  destruct Hge; [left|right]; apply bool_decide_eq_false_2; lia.
Qed.

Lemma loop_body_out_of_range acc c_i c_j :
  in_range C c_i c_j = false →
  loop_body C cameras cam_model acc (c_i, c_j) = Ok acc.
Proof. intros Hr. destruct acc. unfold loop_body. by rewrite Hr. Qed.

(** ** The point the pairwise triangulator gives a track *)

Lemma triangulated_point_new_values t pair idx new_values v :
  pair_new_values C cameras cam_model pair = Ok (Some (idx, new_values)) →
  triangulated_point C cameras cam_model t pair = Some v →
  t ∈ idx ∧ new_values !! t = Some (pt3_float32 v).
Proof.
  intros Hnv. destruct (pair_new_values_shape _ _ _ _ _ _ Hnv) as (_ & Hnd & Hidx).
  apply pair_new_values_Some in Hnv as (pts & Htri & Hset).
  unfold triangulated_point. rewrite Htri.
  destruct (list_find (λ i, i = t) idx) as [[j i]|] eqn:Hfind; simpl; [|done].
  apply list_find_Some in Hfind as (Hj & -> & _). intros Hv.
  split; [by eapply list_elem_of_lookup_2|].
  assert (Hz : Forall (λ i, i < length (np_zeros3 (n_pts C))) idx).
  { unfold np_zeros3. by rewrite length_replicate. }
  assert (Hv' : (pt3_float32 <$> pts) !! j = Some (pt3_float32 v)).
  { by rewrite list_lookup_fmap, Hv. }
  unfold np_setitem in Hset. rewrite forallb_lt_true in Hset by done. simpl in Hset.
  case_bool_decide as Hlen.
  - injection Hset as <-. by eapply np_put_lookup_NoDup.
  - destruct pts as [|v0 [|]]; try done. simpl in Hset. injection Hset as <-.
    destruct j as [|j]; [|done]. injection Hv as ->.
    eapply np_put_lookup_NoDup; eauto.
    apply lookup_replicate_2. by eapply lookup_lt_Some.
Qed.
End AggregatorRuns.

(** ** Calls within the contract return

    When no index is negative, the list [cameras] has an entry for every
    camera of [C], and the collaborators return one point per correspondence,
    no pair raises and [init_pts3d] returns. *)

Lemma every_other_length {A} (l : list A) :
  length l `div` 2 ≤ length (every_other l) ∧
  ∀ x, S (length l) `div` 2 ≤ length (every_other (x :: l)).
Proof.
  induction l as [|y l [IH1 IH2]].
  - split; [simpl; lia|]. intros x. simpl. lia.
  - split; [apply IH2|]. intros x.
    change (every_other (x :: y :: l)) with (x :: every_other l).
    simpl length.
    assert (S (S (length l)) `div` 2 = S (length l `div` 2)) as ->; [|lia].
    replace (S (S (length l))) with (1 * 2 + length l) by lia.
    rewrite Nat.div_add_l by lia. lia.
Qed.

Lemma py_getitem_in_range {A} (l : list A) (c : Z) :
  (0 ≤ c < Z.of_nat (length l))%Z → ∃ x, py_getitem l c = Ok x.
Proof.
  intros Hc. unfold py_getitem, py_index.
  rewrite bool_decide_eq_true_2 by done. simpl.
  destruct (lookup_lt_is_Some_2 l (Z.to_nat c)) as [x ->]; [lia|]. by eexists.
Qed.

Lemma np_T_length k rs : length (np_T k rs) = k.
Proof. unfold np_T. by rewrite length_fmap, length_seq. Qed.

Section InContract.
Context {camera : Type} `{!Externals camera}.
Variable C : array2.
Variable cameras : list camera.
Variable cam_model : string.
Hypothesis triangulatePoints_shape : ∀ P1 P2 pts1 pts2,
  length pts1 = length pts2 →
  ∃ X, triangulatePoints P1 P2 pts1 pts2 = Ok X ∧ length X = length pts1.
Hypothesis stereo_corresp_to_xyz_shape : ∀ P1 P2 pts1 pts2,
  length pts1 = length pts2 →
  ∃ lonlatalt err, stereo_corresp_to_xyz P1 P2 pts1 pts2 = Ok (lonlatalt, err) ∧
                   length lonlatalt = length pts1.
Hypothesis cameras_cover_C : n_cam C ≤ length cameras.

Lemma triangulate_pair_in_contract c_i c_j obs2d_i obs2d_j :
  (0 ≤ c_i < Z.of_nat (n_cam C))%Z → (0 ≤ c_j < Z.of_nat (n_cam C))%Z →
  length obs2d_i = length obs2d_j →
  ∃ pts, triangulate_pair cameras cam_model c_i c_j obs2d_i obs2d_j = Ok pts ∧
         length pts = length obs2d_i.
Proof.
  intros Hi Hj Hobs. unfold triangulate_pair.
  destruct (py_getitem_in_range cameras c_i) as [cam_i ->]; [lia|].
  destruct (py_getitem_in_range cameras c_j) as [cam_j ->]; [lia|]. simpl.
  case_bool_decide.
  - unfold linear_triangulation_multiple_pts.
    destruct (triangulatePoints_shape cam_i cam_j obs2d_i obs2d_j Hobs)
      as (X & -> & HX).
    simpl. eexists. split; [done|]. by rewrite length_fmap.
  - unfold rpc_triangulation.
    destruct (stereo_corresp_to_xyz_shape cam_i cam_j obs2d_i obs2d_j Hobs)
      as (L & e & -> & HL).
    simpl. eexists. split; [done|]. by rewrite length_fmap.
Qed.

Lemma pair_new_values_in_contract (pair : Z * Z) :
  (0 ≤ pair.1)%Z → (0 ≤ pair.2)%Z →
  is_ok (pair_new_values C cameras cam_model pair) = true.
Proof.
  destruct pair as [c_i c_j]. simpl. intros Hi Hj.
  unfold pair_new_values, pair_triangulation.
  destruct (in_range C c_i c_j) eqn:Hr; [|done].
  apply andb_true_iff in Hr as [Hri%bool_decide_eq_true Hrj%bool_decide_eq_true].
  assert (Hm : n_cam C ≤ length (mask C)).
  { unfold mask. rewrite length_fmap. apply every_other_length. }
  destruct (py_getitem_in_range (mask C) c_i) as [mask_i Hmi]; [lia|].
  destruct (py_getitem_in_range (mask C) c_j) as [mask_j Hmj]; [lia|].
  rewrite Hmi, Hmj. simpl.
  case_bool_decide; [done|].
  set (idx := np_where (zip_with andb mask_i mask_j)).
  destruct (triangulate_pair_in_contract c_i c_j (obs2d C c_i idx) (obs2d C c_j idx))
    as (pts & -> & Hlen); [lia..| |].
  { unfold obs2d. by rewrite !np_T_length. }
  simpl.
  unfold obs2d in Hlen. rewrite np_T_length in Hlen.
  unfold np_setitem. rewrite forallb_lt_true.
  - simpl. by rewrite bool_decide_eq_true_2 by (by rewrite length_fmap).
  - unfold np_zeros3. rewrite length_replicate.
    eapply Forall_impl; [apply np_where_lt|]. intros i. simpl.
    rewrite length_zip_with.
    apply py_getitem_elem_of, mask_row_length in Hmi. lia.
Qed.

(** X1.  Within the contract [init_pts3d] returns: when no index of the pair
    list is negative, [cameras] has an entry for every camera of [C], and the
    two collaborators return one point per correspondence, no iteration
    raises. *)
Theorem init_pts3d_returns_in_contract (pairs : list (Z * Z)) :
  Forall (λ p, (0 ≤ p.1)%Z ∧ (0 ≤ p.2)%Z) pairs →
  ∃ avg, init_pts3d C cameras cam_model pairs = Ok avg.
Proof.
  intros Hpairs.
  assert (Hok : is_ok (aggregate C cameras cam_model pairs) = true).
  { rewrite aggregate_is_ok. apply forallb_forall. intros p Hp%list_elem_of_In.
    eapply Forall_forall in Hpairs as [Hi Hj]; [|done].
    by apply pair_new_values_in_contract. }
  unfold init_pts3d.
  destruct (aggregate C cameras cam_model pairs) as [[avg count]|]; [|done].
  by eexists.
Qed.
End InContract.

(** ** The aggregation policy of [init_pts3d] *)

Section AggregatorClaims.
Context {camera : Type} `{!Externals camera}.
Variable C : array2.
Variable cameras : list camera.
Variable cam_model : string.


(** C2.  If [init_pts3d] returns [avg] on a pair list, it returns the same
    [avg] on every permutation of that list. *)
Theorem init_pts3d_order_independent (pairs pairs' : list (Z * Z)) avg :
  pairs ≡ₚ pairs' →
  init_pts3d C cameras cam_model pairs = Ok avg →
  init_pts3d C cameras cam_model pairs' = Ok avg.
Proof.
  intros Hp (count & Hrun)%init_pts3d_Ok. apply init_pts3d_Ok.
  exists count. by eapply aggregate_Permutation.
Qed.

(** C6.  A pair one of whose indices is [n_cam] or more is skipped: its
    iteration returns the accumulators unchanged without raising, and
    [init_pts3d] gives the same result (the same array, or the same exception)
    as on the list without that pair. *)
Theorem init_pts3d_skips_out_of_range (pre post : list (Z * Z)) (c_i c_j : Z) :
  (Z.of_nat (n_cam C) ≤ c_i ∨ Z.of_nat (n_cam C) ≤ c_j)%Z →
  (∀ acc, loop_body C cameras cam_model acc (c_i, c_j) = Ok acc) ∧
  init_pts3d C cameras cam_model (pre ++ (c_i, c_j) :: post) =
    init_pts3d C cameras cam_model (pre ++ post).
Proof.
  intros Hge%in_range_false. split.
  - intros acc. by apply loop_body_out_of_range.
  - unfold init_pts3d, aggregate. rewrite !for_each_app. simpl.
    destruct (for_each _ _ pre) as [acc|e]; simpl; [|done].
    by rewrite loop_body_out_of_range.
Qed.

(** C7.  On the empty pair list [init_pts3d] returns, without raising, the
    array of [n_pts] zero rows; and whenever [init_pts3d] returns, the array
    has [n_pts] rows and the row of every track that no pair of the list
    co-observes is the zero vector. *)
Theorem init_pts3d_zero_without_pairs :
  init_pts3d C cameras cam_model [] = Ok (replicate (n_pts C) pt3_zero) ∧
  ∀ pairs avg,
    init_pts3d C cameras cam_model pairs = Ok avg →
    length avg = n_pts C ∧
    ∀ t, t < n_pts C →
      Forall (λ p, co_observed C t p = false) pairs →
      avg !! t = Some pt3_zero.
Proof.
  split; [done|]. intros pairs avg (count & Hrun)%init_pts3d_Ok.
  destruct (aggregate_mean _ _ _ _ _ _ Hrun) as (Ha & _ & Hpt).
  split; [done|]. intros t Ht Hnone. destruct (Hpt t Ht) as [_ ->].
  by rewrite estimates_not_observed.
Qed.

(** C8, as the code has it.  When [init_pts3d] returns [avg] and exactly one
    pair of the list is in range with both cameras observing track [t],
    [avg[t]] is the row the pairwise triangulator produced for [t] in that
    pair, converted to [float32] by the store into [new_values]; the
    running-mean update with count 1 returns the stored value as it is. *)
Theorem init_pts3d_single_pair (pairs : list (Z * Z)) avg t pair v :
  init_pts3d C cameras cam_model pairs = Ok avg →
  t < n_pts C →
  filter (λ p, co_observed C t p = true) pairs = [pair] →
  triangulated_point C cameras cam_model t pair = Some v →
  avg !! t = Some (pt3_float32 v) ∧
  running_mean 1 pt3_zero (pt3_float32 v) = pt3_float32 v.
Proof.
  intros (count & Hrun)%init_pts3d_Ok Ht Hone Htri.
  destruct (aggregate_mean _ _ _ _ _ _ Hrun) as (_ & _ & Hpt).
  destruct (Hpt t Ht) as [_ ->].
  pose proof (estimates_co_observed _ _ _ _ _ t Hrun Ht) as Hall.
  rewrite Hone in Hall.
  apply Forall2_cons_inv_r in Hall as (v' & l & Hv' & Hnil & ->).
  apply Forall2_nil_inv_r in Hnil as ->.
  rewrite contribution_unfold in Hv'.
  destruct (pair_new_values C cameras cam_model pair) as [[[idx nv]|]|] eqn:Hnv;
    [|done..].
  destruct (triangulated_point_new_values _ _ _ _ _ _ _ _ Hnv Htri) as [Hin Hv].
  rewrite bool_decide_eq_true_2 in Hv' by done.
  assert (v' = pt3_float32 v) as -> by congruence.
  split; [by rewrite mean_singleton|apply running_mean_first].
Qed.
End AggregatorClaims.

(** ** The choice of the triangulator and the range test *)

Lemma for_each_ext {St X} (f g : St → X → result St) s xs :
  (∀ s x, f s x = g s x) → for_each f s xs = for_each g s xs.
Proof.
  intros Hfg. revert s. induction xs as [|x xs IH]; intros s; simpl; [done|].
  rewrite Hfg. destruct (g s x); simpl; [apply IH | done].
Qed.

Lemma py_slice_negative_camera {A} (l : list A) (n : nat) (c : Z) :
  length l = 2 * n → (- Z.of_nat n ≤ c < 0)%Z →
  py_slice l (2 * c) (2 * c + 2) =
    if bool_decide (c = -1)%Z then []
    else take 2 (drop (2 * Z.to_nat (Z.of_nat n + c)) l).
Proof.
  intros Hlen Hc. unfold py_slice, slice_bound. rewrite Hlen.
  rewrite (bool_decide_eq_true_2 (2 * c < 0)%Z) by lia.
  replace (Z.to_nat (0 `max` (Z.of_nat (2 * n) + 2 * c)))
    with (2 * Z.to_nat (Z.of_nat n + c)) by lia.
  destruct (decide (c = -1)%Z) as [->|Hm1].
  - rewrite (bool_decide_eq_true_2 (-1 = -1)%Z) by done.
    rewrite bool_decide_eq_false_2 by lia.
    replace (Z.to_nat (Z.of_nat (2 * n) `min` (2 * -1 + 2))) with 0 by lia.
    done.
  - rewrite (bool_decide_eq_false_2 (c = -1)%Z) by done.
    rewrite bool_decide_eq_true_2 by lia. f_equal. lia.
Qed.

Section GuardClaims.
Context {camera : Type} `{!Externals camera}.
Variable C : array2.
Variable cameras : list camera.

(** C3, as the code has it.  A [cam_model] that is neither ["affine"] nor
    ["perspective"] raises nothing of its own: [init_pts3d] does with it
    exactly what it does with ["rpc"]. *)
Theorem init_pts3d_other_cam_model_is_rpc (cam_model : string) (pairs : list (Z * Z)) :
  cam_model ≠ "affine" → cam_model ≠ "perspective" →
  init_pts3d C cameras cam_model pairs = init_pts3d C cameras "rpc" pairs.
Proof.
  intros Ha Hp. unfold init_pts3d, aggregate. f_equal.
  apply for_each_ext. intros [avg count] [c_i c_j]. unfold loop_body.
  assert (Htri : ∀ o1 o2, triangulate_pair cameras cam_model c_i c_j o1 o2 =
                          triangulate_pair cameras "rpc" c_i c_j o1 o2).
  { intros o1 o2. unfold triangulate_pair.
    rewrite !bool_decide_eq_false_2; [done| |].
    - intros Hin. repeat (apply elem_of_cons in Hin as [Hin|Hin]; [done|]).
      by apply elem_of_nil in Hin.
    - intros Hin. repeat (apply elem_of_cons in Hin as [Hin|Hin]; [done|]).
      by apply elem_of_nil in Hin. }
  destruct (in_range C c_i c_j); [|done].
  destruct (py_getitem (mask C) c_i); [|done].
  destruct (py_getitem (mask C) c_j); [|done]. simpl.
  case_bool_decide; [done|]. by rewrite Htri.
Qed.

End GuardClaims.

(** ** The multiview triangulator *)

Lemma map_result_length {A B} (f : A → result B) (l : list A) (l' : list B) :
  map_result f l = Ok l' → length l' = length l.
Proof.
  revert l'. induction l as [|x l IH]; intros l'; simpl.
  - by intros [= <-].
  - intros (y & _ & (ys & Hys & [= <-])%bind_Ok)%bind_Ok. simpl. f_equal. by apply IH.
Qed.

Lemma map_result_Forall {A B} (f : A → result B) (P : B → Prop) (l : list A) l' :
  (∀ x y, f x = Ok y → P y) → map_result f l = Ok l' → Forall P l'.
Proof.
  intros HP. revert l'. induction l as [|x l IH]; intros l'; simpl.
  - intros [= <-]. constructor.
  - intros (y & Hy & (ys & Hys & [= <-])%bind_Ok)%bind_Ok. constructor; eauto.
Qed.

Lemma define_row_length pts2d i P blk :
  define_row pts2d i P = Ok blk → length blk = 2.
Proof.
  unfold define_row.
  intros (x & _ & (P2 & _ & (P0 & _ & (y & _ & (P1 & _ & [= <-])%bind_Ok)
    %bind_Ok)%bind_Ok)%bind_Ok)%bind_Ok.
  done.
Qed.

Section MultiviewClaims.
Variable svd_vh : matrix → matrix.

(** C4, what the code builds.  The array [A] has one block of two rows per
    projection matrix (three dimensions, [M x 2 x 4], not the [2M x 4] matrix
    of the stacked rows); the decomposition is taken block by block; and what
    the function returns has three rows of [M] entries each, one column per
    camera, not one 3d point. *)
Theorem multiview_A_one_block_per_camera
    (pts2d : list Qc) (projection_matrices : list matrix) (A : list matrix) :
  multiview_A pts2d projection_matrices = Ok A →
  projection_matrices ≠ [] →
  length A = length projection_matrices ∧
  Forall (λ blk, length blk = 2) A ∧
  ∃ pt_3d,
    linear_triangulation_single_pt_multiview svd_vh pts2d projection_matrices
      = Ok pt_3d ∧
    length pt_3d = 3 ∧
    Forall (λ row, length row = length projection_matrices) pt_3d.
Proof.
  intros HA Hne. unfold multiview_A in HA.
  pose proof (map_result_length _ _ _ HA) as Hlen. rewrite length_imap in Hlen.
  split; [done|]. split.
  { eapply map_result_Forall; [|exact HA]. intros [i P] blk. apply define_row_length. }
  unfold linear_triangulation_single_pt_multiview, multiview_A. rewrite HA. simpl.
  rewrite bool_decide_eq_false_2.
  - eexists. split; [done|]. split; [done|].
    repeat constructor; by rewrite !length_fmap.
  - intros ->. destruct projection_matrices; done.
Qed.

(** C5, what the code does.  As soon as the matrix has a track,
    [init_pts3d_multiview] raises: in the first iteration the list [cameras]
    is indexed with the index array that [np.where] returned. *)
Theorem init_pts3d_multiview_raises (C : array2) (cameras : list matrix) :
  0 < n_pts C →
  init_pts3d_multiview svd_vh C cameras = Raise TypeError.
Proof.
  intros Hn. unfold init_pts3d_multiview.
  destruct (n_pts C) as [|n] eqn:Hnp; [lia|]. done.
Qed.
End MultiviewClaims.

(** ** What the aggregator writes *)

Lemma fresh_None (h : gmap loc obj) : h !! fresh (dom h) = None.
Proof. apply not_elem_of_dom, is_fresh. Qed.

Section StoreProperties.
Context {camera : Type} `{!Externals camera}.

(** On three distinct objects the in-place update computes what
    [update_avg_pts3d] computes, and writes it into [avg] and [count] only. *)
Lemma update_avg_pts3d_heap_spec (h : gmap loc obj) l_avg l_count l_new avg count new_v t :
  l_avg ≠ l_count → l_new ≠ l_count →
  h !! l_avg = Some (ArrPts avg) → h !! l_count = Some (ArrNum count) →
  h !! l_new = Some (ArrPts new_v) →
  update_avg_pts3d_heap h l_avg l_count l_new t =
    (λ ac, <[l_avg := ArrPts ac.1]> (<[l_count := ArrNum ac.2]> h))
      <$> update_avg_pts3d avg count new_v t.
Proof.
  intros Hne Hne' Ha Hc Hn. unfold update_avg_pts3d_heap, update_avg_pts3d.
  unfold load_num, load_pts. rewrite Hc. simpl.
  destruct (np_take count t) as [count_t|]; simpl; [|done].
  destruct (np_setitem count t _) as [count'|]; simpl; [|done].
  rewrite lookup_insert_eq. simpl.
  destruct (np_take count' t) as [count_t'|]; simpl; [|done].
  rewrite !lookup_insert_ne by done. rewrite Ha. simpl.
  destruct (np_take avg t) as [avg_t|]; simpl; [|done].
  rewrite Hn. simpl.
  destruct (np_take new_v t) as [new_v_t|]; simpl; [|done].
  by destruct (np_setitem avg t _).
Qed.

Section Frame.
Variable l_C : loc.
Variable cameras : list camera.
Variable cam_model : string.
Variable C : array2.
Variable l_avg l_n_pairs : loc.
Variable h0 : gmap loc obj.
Hypothesis h0_C : h0 !! l_C = Some (Arr2 C).
Hypothesis h0_avg : h0 !! l_avg = None.
Hypothesis h0_n_pairs : h0 !! l_n_pairs = None.
Hypothesis avg_n_pairs : l_avg ≠ l_n_pairs.

Lemma loop_body_heap_step h h' acc pair :
  heap_inv h0 l_avg l_n_pairs h acc →
  loop_body_heap l_C cameras cam_model C l_avg l_n_pairs h pair = Ok h' →
  ∃ acc', loop_body C cameras cam_model acc pair = Ok acc' ∧ heap_inv h0 l_avg l_n_pairs h' acc'.
Proof.
  intros (Hframe & Havg & Hcnt). destruct acc as [avg count], pair as [c_i c_j].
  unfold loop_body_heap, loop_body. simpl in *.
  destruct (in_range C c_i c_j); [|intros [= <-]; by eexists].
  destruct (py_getitem (mask C) c_i) as [mask_i|]; [|done].
  destruct (py_getitem (mask C) c_j) as [mask_j|]; [|done]. simpl.
  assert (HC : h !! l_C = Some (Arr2 C)) by (rewrite Hframe; [done|by eexists]).
  unfold load_arr2. rewrite HC. simpl.
  case_bool_decide; [intros [= <-]; by eexists|].
  destruct (triangulate_pair _ _ _ _ _ _) as [pts|]; [|done]. simpl.
  unfold alloc. simpl.
  pose proof (fresh_None h) as Hnew. revert Hnew.
  generalize (fresh (dom h)). intros l_new Hnew.
  unfold load_pts at 1. rewrite lookup_insert_eq. simpl.
  destruct (np_setitem _ _ _) as [nv|]; [|done]. simpl.
  assert (l_new ≠ l_avg) by congruence.
  assert (l_new ≠ l_n_pairs) by congruence.
  rewrite (update_avg_pts3d_heap_spec _ _ _ _ avg count nv); [|done..| | |].
  - destruct (update_avg_pts3d avg count nv _) as [[avg' count']|]; [|done]. simpl.
    intros [= <-]. eexists. split; [done|]. split; [|split].
    + intros l Hl. pose proof (Hframe l Hl) as Hsame. destruct Hl as [o Ho].
      rewrite !lookup_insert_ne; [done|congruence..].
    + by rewrite lookup_insert_eq.
    + rewrite lookup_insert_ne by done. by rewrite lookup_insert_eq.
  - by rewrite !lookup_insert_ne.
  - by rewrite !lookup_insert_ne.
  - by rewrite lookup_insert_eq.
Qed.

Lemma for_each_loop_body_heap (pairs : list (Z * Z)) :
  ∀ h h' acc,
  heap_inv h0 l_avg l_n_pairs h acc →
  for_each (loop_body_heap l_C cameras cam_model C l_avg l_n_pairs) h pairs = Ok h' →
  ∃ acc', for_each (loop_body C cameras cam_model) acc pairs = Ok acc' ∧
          heap_inv h0 l_avg l_n_pairs h' acc'.
Proof.
  induction pairs as [|pair pairs IH]; intros h h' acc Hinv Hrun; simpl in *.
  - injection Hrun as <-. by eexists.
  - apply bind_Ok in Hrun as (h1 & Hstep & Hrest).
    destruct (loop_body_heap_step _ _ _ _ Hinv Hstep) as (acc1 & -> & Hinv1).
    simpl. by eapply IH.
Qed.
End Frame.

(** C9.  When [init_pts3d], run on a heap, returns: the object [C] is as it
    was, and so is every other object that existed before the call; the
    returned array is an object that did not exist before; and the returned
    array is the one the function computes from the value of [C]. *)
Theorem init_pts3d_heap_frame (l_C : loc) (cameras : list camera) (cam_model : string)
    (h h' : gmap loc obj) (pairs : list (Z * Z)) (l_out : loc) :
  init_pts3d_heap l_C cameras cam_model h pairs = Ok (h', l_out) →
  h' !! l_C = h !! l_C ∧
  (∀ l, is_Some (h !! l) → h' !! l = h !! l) ∧
  h !! l_out = None ∧
  ∃ C avg,
    h !! l_C = Some (Arr2 C) ∧
    h' !! l_out = Some (ArrPts avg) ∧
    init_pts3d C cameras cam_model pairs = Ok avg.
Proof.
  unfold init_pts3d_heap, load_arr2.
  destruct (h !! l_C) as [[C| |]|] eqn:HC; simpl; try done.
  unfold alloc. simpl.
  pose proof (fresh_None h) as Havg. revert Havg.
  generalize (fresh (dom h)). intros l_avg Havg.
  pose proof (fresh_None (<[l_avg := ArrPts (np_zeros3 (n_pts C))]> h)) as Hn.
  revert Hn. generalize (fresh (dom (<[l_avg := ArrPts (np_zeros3 (n_pts C))]> h))).
  intros l_n Hn.
  intros (hf & Hrun & [= <- <-])%bind_Ok.
  assert (l_avg ≠ l_n).
  { intros <-. by rewrite lookup_insert_eq in Hn. }
  rewrite lookup_insert_ne in Hn by done.
  assert (Hinit : heap_inv h l_avg l_n
            (<[l_n := ArrNum (np_zeros (n_pts C))]>
               (<[l_avg := ArrPts (np_zeros3 (n_pts C))]> h))
            (np_zeros3 (n_pts C), np_zeros (n_pts C))).
  { split; [|split].
    - intros l [o Ho]. rewrite !lookup_insert_ne; [done|congruence..].
    - rewrite lookup_insert_ne by done. by rewrite lookup_insert_eq.
    - by rewrite lookup_insert_eq. }
  destruct (for_each_loop_body_heap l_C cameras cam_model C l_avg l_n h HC Havg Hn
              ltac:(done) pairs _ _ _ Hinit Hrun)
    as ([avg count] & Hpure & Hframe & Hout & _).
  split; [|split; [|split]].
  - rewrite Hframe; [by rewrite HC | by rewrite HC].
  - done.
  - done.
  - exists C, avg. split; [done|]. split; [done|].
    unfold init_pts3d, aggregate. by rewrite Hpure.
Qed.
End StoreProperties.

(** ** Concrete runs *)

Section Runs.
Import Toy.


Lemma init_pts3d_order_independent_witness :
  pairs3 ≡ₚ [(1, 2); (0, 1); (0, 2)]%Z ∧
  init_pts3d C3 cams3 "affine" pairs3 = Ok avg3 ∧
  init_pts3d C3 cams3 "affine" [(1, 2); (0, 1); (0, 2)]%Z = Ok avg3.
Proof.
  assert (Hp : pairs3 ≡ₚ [(1, 2); (0, 1); (0, 2)]%Z) by apply perm_swap.
  assert (Hrun : init_pts3d C3 cams3 "affine" pairs3 = Ok avg3) by compute_done.
  split; [exact Hp|]. split; [exact Hrun|].
  exact (init_pts3d_order_independent C3 cams3 "affine" _ _ avg3 Hp Hrun).
Defined.

Lemma init_pts3d_skips_out_of_range_witness :
  (Z.of_nat (n_cam C3) ≤ 0 ∨ Z.of_nat (n_cam C3) ≤ 3)%Z ∧
  init_pts3d C3 cams3 "affine" [(0, 1); (0, 3); (1, 2)]%Z =
    init_pts3d C3 cams3 "affine" [(0, 1); (1, 2)]%Z.
Proof.
  assert (Hge : (Z.of_nat (n_cam C3) ≤ 0 ∨ Z.of_nat (n_cam C3) ≤ 3)%Z)
    by (right; vm_compute; discriminate).
  split; [exact Hge|].
  exact (proj2 (init_pts3d_skips_out_of_range C3 cams3 "affine"
                  [(0, 1)]%Z [(1, 2)]%Z 0 3 Hge)).
Defined.

Lemma init_pts3d_zero_without_pairs_witness :
  init_pts3d C3 cams3 "affine" pairs3 = Ok avg3 ∧
  Forall (λ p, co_observed C3 2 p = false) pairs3 ∧
  length avg3 = n_pts C3 ∧
  avg3 !! 2 = Some pt3_zero.
Proof.
  assert (Hrun : init_pts3d C3 cams3 "affine" pairs3 = Ok avg3) by compute_done.
  assert (Hnone : Forall (λ p, co_observed C3 2 p = false) pairs3)
    by (repeat constructor).
  assert (Ht : 2 < n_pts C3) by (vm_compute; lia).
  destruct (proj2 (init_pts3d_zero_without_pairs C3 cams3 "affine") pairs3 avg3 Hrun)
    as [Hlen Hzero].
  split; [exact Hrun|]. split; [exact Hnone|]. split; [exact Hlen|].
  exact (Hzero 2 Ht Hnone).
Defined.

Lemma init_pts3d_single_pair_witness :
  init_pts3d C3 cams3 "affine" pairs3 = Ok avg3 ∧
  filter (λ p, co_observed C3 1 p = true) pairs3 = [(0, 1)%Z] ∧
  triangulated_point C3 cams3 "affine" 1 (0, 1)%Z = Some (Pt3 (q 3) (q 6) (q 14)) ∧
  avg3 !! 1 = Some (pt3_float32 (Pt3 (q 3) (q 6) (q 14))).
Proof.
  assert (Hrun : init_pts3d C3 cams3 "affine" pairs3 = Ok avg3) by compute_done.
  assert (Hone : filter (λ p, co_observed C3 1 p = true) pairs3 = [(0, 1)%Z])
    by compute_done.
  assert (Htri : triangulated_point C3 cams3 "affine" 1 (0, 1)%Z
                 = Some (Pt3 (q 3) (q 6) (q 14))) by compute_done.
  assert (Ht : 1 < n_pts C3) by (vm_compute; lia).
  split; [exact Hrun|]. split; [exact Hone|]. split; [exact Htri|].
  exact (proj1 (init_pts3d_single_pair C3 cams3 "affine" pairs3 avg3 1 (0, 1)%Z _
                  Hrun Ht Hone Htri)).
Defined.

(** C8, the claim as stated fails: track 0 of [C_wide] is seen by the one
    pair [(0, 1)], whose triangulated point has first coordinate
    [2 ^ 24 + 1]; the entry [init_pts3d] returns for it has [2 ^ 24], the
    nearest [float32]. *)
Lemma single_pair_entry_is_narrowed :
  filter (λ p, co_observed Samples.C_wide 0 p = true) [(0, 1)%Z] = [(0, 1)%Z] ∧
  triangulated_point Samples.C_wide Samples.cams_wide "affine" 0 (0, 1)%Z
    = Some (Pt3 (q 16777217) (q 0) (q 0)) ∧
  init_pts3d Samples.C_wide Samples.cams_wide "affine" [(0, 1)%Z]
    = Ok [Pt3 (q 16777216) (q 0) (q 0)] ∧
  Pt3 (q 16777216) (q 0) (q 0) ≠ Pt3 (q 16777217) (q 0) (q 0).
Proof. repeat split; compute_done. Qed.

(** C3, the claim as stated fails: a [cam_model] that is none of the three
    names is accepted, and [init_pts3d] returns an array. *)
Lemma unrecognised_cam_model_returns :
  ("foo" ∉ ["affine"; "perspective"; "rpc"]) ∧
  init_pts3d C3 cams3 "foo" pairs3 = Ok avg3_rpc.
Proof. split; compute_done. Qed.

Lemma init_pts3d_other_cam_model_is_rpc_witness :
  "foo" ≠ "affine" ∧ "foo" ≠ "perspective" ∧
  init_pts3d C3 cams3 "foo" pairs3 = init_pts3d C3 cams3 "rpc" pairs3.
Proof.
  assert (Ha : "foo" ≠ "affine") by discriminate.
  assert (Hp : "foo" ≠ "perspective") by discriminate.
  split; [exact Ha|]. split; [exact Hp|].
  exact (init_pts3d_other_cam_model_is_rpc C3 cams3 "foo" pairs3 Ha Hp).
Defined.

(** C10, the claim as stated fails: the pair [(-1, 3)] has a negative index
    and is skipped, because its other index is not below [n_cam = 3]. *)
Lemma negative_index_pair_skipped :
  (-1 < 0)%Z ∧
  in_range C3 (-1) 3 = false ∧
  loop_body C3 cams3 "affine" (avg3, count3) (-1, 3)%Z = Ok (avg3, count3) ∧
  init_pts3d C3 cams3 "affine" [(0, 1); (-1, 3)]%Z =
    init_pts3d C3 cams3 "affine" [(0, 1)]%Z.
Proof. repeat split; compute_done. Qed.

Lemma multiview_A_one_block_per_camera_witness :
  multiview_A track_obs [P_a; P_b] = Ok blocks_ab ∧
  single_pt_A P_a P_b [q 1; q 2] [q 3; q 4] = Ok rows_ab ∧
  [P_a; P_b] ≠ [] ∧
  length blocks_ab = 2 ∧
  ∃ pt_3d,
    linear_triangulation_single_pt_multiview vh_of track_obs [P_a; P_b] = Ok pt_3d ∧
    length pt_3d = 3 ∧ Forall (λ row, length row = 2) pt_3d.
Proof.
  assert (HA : multiview_A track_obs [P_a; P_b] = Ok blocks_ab) by compute_done.
  assert (Hne : [P_a; P_b] ≠ []) by discriminate.
  destruct (multiview_A_one_block_per_camera vh_of track_obs [P_a; P_b] blocks_ab
              HA Hne) as (Hlen & _ & Hres).
  split; [exact HA|]. split; [compute_done|]. split; [exact Hne|].
  split; [exact Hlen | exact Hres].
Defined.

Lemma init_pts3d_multiview_raises_witness :
  0 < n_pts C3 ∧
  init_pts3d_multiview vh_of C3 [P_a; P_b; P_a] = Raise TypeError.
Proof.
  assert (Hn : 0 < n_pts C3) by (vm_compute; lia).
  split; [exact Hn|].
  exact (init_pts3d_multiview_raises vh_of C3 [P_a; P_b; P_a] Hn).
Defined.

Lemma init_pts3d_heap_frame_witness :
  init_pts3d_heap 1%positive cams3 "affine" heap3 pairs3
    = Ok (heap3_final, 3%positive) ∧
  heap3_final !! 1%positive = heap3 !! 1%positive ∧
  heap3_final !! 2%positive = heap3 !! 2%positive ∧
  heap3 !! 3%positive = None.
Proof.
  assert (Hrun : init_pts3d_heap 1%positive cams3 "affine" heap3 pairs3
                 = Ok (heap3_final, 3%positive)) by (vm_compute; reflexivity).
  destruct (init_pts3d_heap_frame 1%positive cams3 "affine" heap3 heap3_final
              pairs3 3%positive Hrun) as (HC & Hframe & Hfresh & _).
  split; [exact Hrun|]. split; [exact HC|]. split; [|exact Hfresh].
  apply Hframe. by eexists.
Defined.
End Runs.

(** ** More on the aggregator: edge behaviour and composition *)

Lemma py_getitem_Raise {A} (l : list A) (c : Z) e :
  py_getitem l c = Raise e → e = IndexError.
Proof.
  unfold py_getitem, py_index. repeat case_bool_decide; simpl;
    try destruct (l !! _); simpl; congruence.
Qed.

Lemma py_getitem_wraps {A} (l : list A) (c : Z) :
  (- Z.of_nat (length l) ≤ c < Z.of_nat (length l))%Z → ∃ x, py_getitem l c = Ok x.
Proof.
  intros Hc. destruct (decide (0 ≤ c)%Z) as [Hpos|Hneg].
  - apply py_getitem_in_range. lia.
  - rewrite py_getitem_negative by lia. rewrite bool_decide_eq_true_2 by lia.
    destruct (lookup_lt_is_Some_2 l (Z.to_nat (Z.of_nat (length l) + c)))
      as [x ->]; [lia|]. by eexists.
Qed.

Lemma py_getitem_below {A} (l : list A) (c : Z) :
  (c < - Z.of_nat (length l))%Z → py_getitem l c = Raise IndexError.
Proof.
  intros Hc. rewrite py_getitem_negative by lia.
  by rewrite bool_decide_eq_false_2 by lia.
Qed.

Lemma py_getitem_above {A} (l : list A) (c : Z) :
  (Z.of_nat (length l) ≤ c)%Z → py_getitem l c = Raise IndexError.
Proof.
  intros Hc. unfold py_getitem, py_index.
  by rewrite !bool_decide_eq_false_2 by lia.
Qed.

Lemma mask_length (C : array2) : n_cam C ≤ length (mask C).
Proof. unfold mask. rewrite length_fmap. apply every_other_length. Qed.

Lemma pt3_sum_app l1 l2 : pt3_sum (l1 ++ l2) = pt3_add (pt3_sum l1) (pt3_sum l2).
Proof.
  induction l1 as [|x l1 IH]; simpl.
  - destruct (pt3_sum l2). unfold pt3_add, pt3_zero; simpl. f_equal; ring.
  - by rewrite IH, pt3_add_assoc.
Qed.

Lemma count_of_add n m : count_of (n + m) = (count_of n + count_of m)%Qc.
Proof.
  induction n as [|n IH]; simpl.
  - rewrite count_of_0. ring.
  - rewrite !count_of_S, IH. ring.
Qed.

(** The mean of a list written twice is the mean of the list. *)
Lemma mean_twice (l : list pt3) : mean (l ++ l) = mean l.
Proof.
  destruct l as [|x l]; [done|].
  change (mean ((x :: l) ++ x :: l))
    with (pt3_div (pt3_sum ((x :: l) ++ x :: l))
            (count_of (length ((x :: l) ++ x :: l)))).
  change (mean (x :: l)) with (pt3_div (pt3_sum (x :: l)) (count_of (length (x :: l)))).
  rewrite pt3_sum_app, length_app, count_of_add.
  pose proof (count_of_S_nonzero (length l)) as Hc.
  pose proof (count_of_S_nonzero (length l + S (length l))) as Hcc.
  change (S (length l + S (length l)))
    with (length (x :: l) + length (x :: l)) in Hcc.
  rewrite count_of_add in Hcc.
  change (S (length l)) with (length (x :: l)) in Hc.
  generalize dependent (count_of (length (x :: l))). intros c Hc Hcc.
  generalize (pt3_sum (x :: l)). intros [sx sy sz].
  unfold pt3_div, pt3_add; cbn [px py pz].
  f_equal; field; done.
Qed.


Lemma ret_bind {A B} (f : A → result B) (a : A) : Ok a ≫= f = f a.
Proof. done. Qed.

Lemma for_each_cons {St X} (body : St → X → result St) s x xs :
  for_each body s (x :: xs) = body s x ≫= λ s', for_each body s' xs.
Proof. done. Qed.

Section AggregatorEdges.
Context {camera : Type} `{!Externals camera}.
Variable C : array2.
Variable cameras : list camera.
Variable cam_model : string.

Lemma init_pts3d_raises_at (pre post : list (Z * Z)) pair avg e :
  init_pts3d C cameras cam_model pre = Ok avg →
  (∀ acc, loop_body C cameras cam_model acc pair = Raise e) →
  init_pts3d C cameras cam_model (pre ++ pair :: post) = Raise e.
Proof.
  intros (count & Hpre)%init_pts3d_Ok Hbody.
  unfold init_pts3d, aggregate in *. rewrite for_each_app, Hpre.
  rewrite ret_bind, for_each_cons, Hbody. done.
Qed.

(** X2.  A pair that passes the range test with an index below
    [-len(mask)] makes [init_pts3d] raise [IndexError] when its turn comes:
    such an index is not skipped, and it is outside what negative indexing
    reaches. *)
Theorem init_pts3d_index_below_mask (pre post : list (Z * Z)) (c_i c_j : Z) avg :
  init_pts3d C cameras cam_model pre = Ok avg →
  (c_i < Z.of_nat (n_cam C))%Z → (c_j < Z.of_nat (n_cam C))%Z →
  (c_i < - Z.of_nat (length (mask C)) ∨ c_j < - Z.of_nat (length (mask C)))%Z →
  init_pts3d C cameras cam_model (pre ++ (c_i, c_j) :: post) = Raise IndexError.
Proof.
  intros Hpre Hi Hj Hlow. eapply init_pts3d_raises_at; [done|].
  intros [a c]. unfold loop_body, in_range.
  rewrite !bool_decide_eq_true_2 by done. simpl.
  destruct (py_getitem (mask C) c_i) as [mask_i|e] eqn:Hmi.
  - destruct Hlow as [Hlow|Hlow].
    + rewrite py_getitem_below in Hmi by done. done.
    + simpl. by rewrite py_getitem_below.
  - by apply py_getitem_Raise in Hmi as ->.
Qed.

(** X3.  A list [cameras] shorter than a camera index raises [IndexError],
    but only at a pair that reaches triangulation: both indices in range and
    at least one track seen by both cameras. *)
Theorem init_pts3d_missing_camera (pre post : list (Z * Z)) (c_i c_j : Z) avg t :
  init_pts3d C cameras cam_model pre = Ok avg →
  t < n_pts C → co_observed C t (c_i, c_j) = true →
  (0 ≤ c_i)%Z → (0 ≤ c_j)%Z →
  (Z.of_nat (length cameras) ≤ c_i ∨ Z.of_nat (length cameras) ≤ c_j)%Z →
  init_pts3d C cameras cam_model (pre ++ (c_i, c_j) :: post) = Raise IndexError.
Proof.
  intros Hpre Ht Hco Hi Hj Hshort. eapply init_pts3d_raises_at; [done|].
  intros [a c]. unfold loop_body. unfold co_observed in Hco.
  apply andb_true_iff in Hco as [-> Hco].
  destruct (py_getitem (mask C) c_i) as [mask_i|]; [|done].
  destruct (py_getitem (mask C) c_j) as [mask_j|]; [|done]. simpl.
  apply andb_true_iff in Hco as [Hti%bool_decide_eq_true Htj%bool_decide_eq_true].
  assert (Hin : t ∈ np_where (zip_with andb mask_i mask_j)).
  { apply elem_of_np_where, lookup_zip_with_andb. done. }
  rewrite bool_decide_eq_false_2.
  2:{ intros Hnil%nil_length_inv. rewrite Hnil in Hin. by apply elem_of_nil in Hin. }
  assert (Htri : ∀ o1 o2,
    triangulate_pair cameras cam_model c_i c_j o1 o2 = Raise IndexError).
  { intros o1 o2. unfold triangulate_pair.
    destruct (py_getitem cameras c_i) as [cam_i|e] eqn:Hci.
    - destruct Hshort as [Hshort|Hshort].
      + rewrite py_getitem_above in Hci by done. done.
      + rewrite (py_getitem_above cameras c_j) by done. by case_bool_decide.
    - apply py_getitem_Raise in Hci as ->. by case_bool_decide. }
  by rewrite Htri.
Qed.

(** X4.  A pair whose two cameras have no track in common is passed over
    before the list [cameras], [cam_model] or a collaborator is looked at: the
    iteration returns the accumulators as they were, whatever [cameras] holds. *)
Theorem loop_body_no_common_track (c_i c_j : Z) (acc : list pt3 * list Qc) :
  (- Z.of_nat (length (mask C)) ≤ c_i)%Z → (- Z.of_nat (length (mask C)) ≤ c_j)%Z →
  (∀ t, t < n_pts C → co_observed C t (c_i, c_j) = false) →
  loop_body C cameras cam_model acc (c_i, c_j) = Ok acc.
Proof.
  intros Hi Hj Hnone. destruct acc as [a c]. unfold loop_body.
  destruct (in_range C c_i c_j) eqn:Hr; [|done].
  pose proof Hr as Hr'. unfold in_range in Hr'.
  apply andb_true_iff in Hr' as [Hri%bool_decide_eq_true Hrj%bool_decide_eq_true].
  pose proof (mask_length C) as Hm.
  destruct (py_getitem_wraps (mask C) c_i) as [mask_i Hmi]; [lia|].
  destruct (py_getitem_wraps (mask C) c_j) as [mask_j Hmj]; [lia|].
  rewrite Hmi, Hmj. simpl.
  rewrite bool_decide_eq_true_2; [done|].
  destruct (np_where (zip_with andb mask_i mask_j)) as [|t idx] eqn:Hidx; [done|].
  exfalso.
  assert (Hin : t ∈ np_where (zip_with andb mask_i mask_j)) by (rewrite Hidx; left).
  pose proof Hin as Hlt. apply elem_of_np_where, lookup_lt_Some in Hlt.
  rewrite length_zip_with in Hlt.
  pose proof (mask_row_length C _ (py_getitem_elem_of _ _ _ Hmi)) as Hlen.
  apply elem_of_np_where, lookup_zip_with_andb in Hin as [Hti Htj].
  specialize (Hnone t ltac:(lia)). unfold co_observed in Hnone.
  rewrite Hr, Hmi, Hmj, Hti, Htj in Hnone. done.
Qed.

(** X5.  Processing the whole pair list twice gives the same result as
    processing it once: the same array, or the same exception. *)
Theorem init_pts3d_list_twice (pairs : list (Z * Z)) :
  init_pts3d C cameras cam_model (pairs ++ pairs) = init_pts3d C cameras cam_model pairs.
Proof.
  destruct (aggregate C cameras cam_model pairs) as [[avg count]|e] eqn:Hrun.
  - pose proof (aggregate_is_ok C cameras cam_model (pairs ++ pairs)) as Hok.
    rewrite forallb_app, <-aggregate_is_ok, Hrun in Hok. simpl in Hok.
    destruct (aggregate C cameras cam_model (pairs ++ pairs)) as [[avg' count']|]
      eqn:Hrun'; [|done].
    unfold init_pts3d. rewrite Hrun, Hrun'. simpl. f_equal.
    destruct (aggregate_mean _ _ _ _ _ _ Hrun) as (Ha & _ & Hpt).
    destruct (aggregate_mean _ _ _ _ _ _ Hrun') as (Ha' & _ & Hpt').
    apply list_eq. intros t. destruct (decide (t < n_pts C)) as [Ht|Ht].
    + destruct (Hpt t Ht) as [_ ->]. destruct (Hpt' t Ht) as [_ ->].
      by rewrite estimates_app, mean_twice.
    + rewrite !lookup_ge_None_2; [done|lia..].
  - unfold init_pts3d, aggregate in *. rewrite for_each_app, Hrun. done.
Qed.

(** X6.  The entry of a track does not depend on the pairs that do not
    co-observe it: when [init_pts3d] returns on a list, it returns on the list
    without one of its pairs, and every track that pair does not co-observe
    has the same entry in both results. *)
Theorem init_pts3d_pair_is_local (pre post : list (Z * Z)) (pair : Z * Z) avg :
  init_pts3d C cameras cam_model (pre ++ pair :: post) = Ok avg →
  ∃ avg', init_pts3d C cameras cam_model (pre ++ post) = Ok avg' ∧
    ∀ t, co_observed C t pair = false → avg' !! t = avg !! t.
Proof.
  intros (count & Hrun)%init_pts3d_Ok.
  pose proof (aggregate_is_ok C cameras cam_model (pre ++ pair :: post)) as Hok.
  rewrite Hrun in Hok. simpl in Hok. symmetry in Hok.
  rewrite forallb_app in Hok. simpl in Hok.
  apply andb_true_iff in Hok as [Hpre [_ Hpost]%andb_true_iff].
  pose proof (aggregate_is_ok C cameras cam_model (pre ++ post)) as Hok'.
  rewrite forallb_app, Hpre, Hpost in Hok'. simpl in Hok'.
  destruct (aggregate C cameras cam_model (pre ++ post)) as [[avg' count']|]
    eqn:Hrun'; [|done].
  exists avg'. split; [apply init_pts3d_Ok; eauto|].
  intros t Hco.
  destruct (aggregate_mean _ _ _ _ _ _ Hrun) as (Ha & _ & Hpt).
  destruct (aggregate_mean _ _ _ _ _ _ Hrun') as (Ha' & _ & Hpt').
  destruct (decide (t < n_pts C)) as [Ht|Ht].
  - destruct (Hpt t Ht) as [_ ->]. destruct (Hpt' t Ht) as [_ ->].
    rewrite !estimates_app, estimates_cons.
    destruct (contribution C cameras cam_model t pair) as [v|] eqn:Hv; [|done].
    apply contribution_co_observed in Hv. congruence.
  - rewrite !lookup_ge_None_2; [done|lia..].
Qed.

End AggregatorEdges.

(** X8.  [update_avg_pts3d] on arrays of one length and an index array
    within range (an index may occur more than once): it returns arrays of the
    same lengths; an entry whose index is not listed is unchanged; an entry
    whose index is listed has its count incremented by one, once, and its
    average replaced by [((count - 1) * avg + new_v) / count] for the new
    count. *)
Theorem update_avg_pts3d_pointwise (avg : list pt3) (count : list Qc)
    (new_v : list pt3) (t : list nat) :
  length count = length avg → length new_v = length avg →
  Forall (λ i, i < length avg) t →
  ∃ avg' count',
    update_avg_pts3d avg count new_v t = Ok (avg', count') ∧
    length avg' = length avg ∧ length count' = length count ∧
    (∀ i, i ∉ t → avg' !! i = avg !! i ∧ count' !! i = count !! i) ∧
    (∀ i c a v, i ∈ t → count !! i = Some c → avg !! i = Some a → new_v !! i = Some v →
       count' !! i = Some (c + 1)%Qc ∧
       avg' !! i = Some (pt3_div (pt3_add (pt3_scale (c + 1 - 1)%Qc a) v) (c + 1)%Qc)).
Proof.
  intros Hc Hn Ht.
  destruct (update_avg_pts3d_in_range avg count new_v t Hc Hn Ht)
    as (avg' & count' & Hrun & Ha' & Hc' & Hpt).
  exists avg', count'. split; [done|]. split; [done|]. split; [done|]. split.
  - intros i Hi. destruct (decide (i < length avg)) as [Hlt|Hge].
    + destruct (Hpt i Hlt) as [Hci Hai].
      rewrite bool_decide_eq_false_2 in Hci, Hai by done. done.
    + rewrite !lookup_ge_None_2; [done|lia..].
  - intros i c a v Hi Hci Hai Hvi.
    destruct (Hpt i) as [Hci' Hai']; [by eapply lookup_lt_Some|].
    rewrite bool_decide_eq_true_2 in Hci', Hai' by done.
    rewrite Hci in Hci', Hai'. rewrite Hai, Hvi in Hai'. done.
Qed.

(** ** The heap version computes what the pure version computes *)

Section Refinement.
Context {camera : Type} `{!Externals camera}.
Variable l_C : loc.
Variable cameras : list camera.
Variable cam_model : string.
Variable C : array2.
Variable l_avg l_n_pairs : loc.
Variable h0 : gmap loc obj.
Hypothesis h0_C : h0 !! l_C = Some (Arr2 C).
Hypothesis h0_avg : h0 !! l_avg = None.
Hypothesis h0_n_pairs : h0 !! l_n_pairs = None.
Hypothesis avg_n_pairs : l_avg ≠ l_n_pairs.

Lemma loop_body_heap_refines h acc pair :
  heap_inv h0 l_avg l_n_pairs h acc →
  match loop_body C cameras cam_model acc pair with
  | Ok acc' =>
      ∃ h', loop_body_heap l_C cameras cam_model C l_avg l_n_pairs h pair = Ok h' ∧
            heap_inv h0 l_avg l_n_pairs h' acc'
  | Raise e =>
      loop_body_heap l_C cameras cam_model C l_avg l_n_pairs h pair = Raise e
  end.
Proof.
  intros Hinv.
  destruct (loop_body_heap l_C cameras cam_model C l_avg l_n_pairs h pair)
    as [h'|e] eqn:Hheap.
  - destruct (loop_body_heap_step l_C cameras cam_model C l_avg l_n_pairs h0
                h0_C h0_avg h0_n_pairs avg_n_pairs h h' acc pair Hinv Hheap)
      as (acc' & -> & Hinv'). eauto.
  - destruct Hinv as (Hframe & Havg & Hcnt).
    destruct acc as [avg count], pair as [c_i c_j].
    unfold loop_body_heap, loop_body in *. simpl in *.
    destruct (in_range C c_i c_j); [|done].
    destruct (py_getitem (mask C) c_i) as [mask_i|]; [|done].
    destruct (py_getitem (mask C) c_j) as [mask_j|]; [|done]. simpl in *.
    assert (HC : h !! l_C = Some (Arr2 C)) by (rewrite Hframe; [done|by eexists]).
    unfold load_arr2 in Hheap. rewrite HC in Hheap. simpl in Hheap.
    case_bool_decide; [done|].
    destruct (triangulate_pair _ _ _ _ _ _) as [pts|]; [|done]. simpl in *.
    unfold alloc in Hheap. simpl in Hheap.
    pose proof (fresh_None h) as Hnew. revert Hnew Hheap.
    generalize (fresh (dom h)). intros l_new Hnew Hheap.
    unfold load_pts at 1 in Hheap. rewrite lookup_insert_eq in Hheap. simpl in Hheap.
    destruct (np_setitem _ _ _) as [nv|]; [|done]. simpl in *.
    assert (l_new ≠ l_avg) by congruence.
    assert (l_new ≠ l_n_pairs) by congruence.
    rewrite (update_avg_pts3d_heap_spec _ _ _ _ avg count nv) in Hheap; [|done..| | |].
    + destruct (update_avg_pts3d avg count nv _) as [[avg' count']|]; done.
    + by rewrite !lookup_insert_ne.
    + by rewrite !lookup_insert_ne.
    + by rewrite lookup_insert_eq.
Qed.

Lemma for_each_loop_body_heap_refines (pairs : list (Z * Z)) :
  ∀ h acc,
  heap_inv h0 l_avg l_n_pairs h acc →
  match for_each (loop_body C cameras cam_model) acc pairs with
  | Ok acc' =>
      ∃ h', for_each (loop_body_heap l_C cameras cam_model C l_avg l_n_pairs) h pairs
              = Ok h' ∧ heap_inv h0 l_avg l_n_pairs h' acc'
  | Raise e =>
      for_each (loop_body_heap l_C cameras cam_model C l_avg l_n_pairs) h pairs
        = Raise e
  end.
Proof.
  induction pairs as [|pair pairs IH]; intros h acc Hinv.
  - simpl. eauto.
  - rewrite !for_each_cons.
    pose proof (loop_body_heap_refines h acc pair Hinv) as Hstep.
    destruct (loop_body C cameras cam_model acc pair) as [acc1|e].
    + destruct Hstep as (h1 & -> & Hinv1). rewrite !ret_bind. by apply IH.
    + by rewrite Hstep.
Qed.
End Refinement.

(** X9.  Run on a heap whose object [l_C] is the array [C], the in-place
    [init_pts3d] does what the function on values does: it returns exactly
    when that one returns, the returned location then holds the same array,
    and otherwise it raises the same exception. *)
Theorem init_pts3d_heap_refines {camera : Type} `{!Externals camera}
    (l_C : loc) (cameras : list camera) (cam_model : string)
    (h : gmap loc obj) (C : array2) (pairs : list (Z * Z)) :
  h !! l_C = Some (Arr2 C) →
  match init_pts3d C cameras cam_model pairs with
  | Ok avg =>
      ∃ h' l_out, init_pts3d_heap l_C cameras cam_model h pairs = Ok (h', l_out) ∧
                  h' !! l_out = Some (ArrPts avg)
  | Raise e => init_pts3d_heap l_C cameras cam_model h pairs = Raise e
  end.
Proof.
  intros HC. unfold init_pts3d_heap, load_arr2. rewrite HC. simpl.
  unfold alloc. simpl.
  pose proof (fresh_None h) as Havg. revert Havg.
  generalize (fresh (dom h)). intros l_avg Havg.
  pose proof (fresh_None (<[l_avg := ArrPts (np_zeros3 (n_pts C))]> h)) as Hn.
  revert Hn. generalize (fresh (dom (<[l_avg := ArrPts (np_zeros3 (n_pts C))]> h))).
  intros l_n Hn.
  assert (l_avg ≠ l_n).
  { intros <-. by rewrite lookup_insert_eq in Hn. }
  rewrite lookup_insert_ne in Hn by done.
  assert (Hinit : heap_inv h l_avg l_n
            (<[l_n := ArrNum (np_zeros (n_pts C))]>
               (<[l_avg := ArrPts (np_zeros3 (n_pts C))]> h))
            (np_zeros3 (n_pts C), np_zeros (n_pts C))).
  { split; [|split].
    - intros l [o Ho]. rewrite !lookup_insert_ne; [done|congruence..].
    - rewrite lookup_insert_ne by done. by rewrite lookup_insert_eq.
    - by rewrite lookup_insert_eq. }
  pose proof (for_each_loop_body_heap_refines l_C cameras cam_model C l_avg l_n h
                HC Havg Hn ltac:(done) pairs _ _ Hinit) as Hrun.
  unfold init_pts3d, aggregate.
  destruct (for_each (loop_body C cameras cam_model) _ pairs) as [[avg count]|e].
  - destruct Hrun as (h' & -> & _ & Hout & _). simpl. eauto.
  - rewrite Hrun. done.
Qed.

(** ** The two-view and the multiview triangulators *)

Lemma at_index_Ok {A} (l : list A) (i : nat) :
  i < length l → ∃ x, at_index l i = Ok x ∧ l !! i = Some x.
Proof.
  intros Hi. destruct (lookup_lt_is_Some_2 l i Hi) as [x Hx].
  exists x. unfold at_index. by rewrite Hx.
Qed.

Lemma at_index_Raise {A} (l : list A) (i : nat) :
  length l ≤ i → at_index l i = Raise IndexError.
Proof. intros Hi. unfold at_index. by rewrite lookup_ge_None_2. Qed.

Section TwoView.
Variable svd : matrix → result matrix.

(** X10.  For two cameras the multiview function computes the same four rows
    as the two-view function, in the same order, and fails on the same
    inputs; it holds them as two blocks of two rows where the two-view
    function holds one array of four rows. *)
Theorem multiview_A_rows_of_two_views (P1 P2 : matrix) (x1 y1 x2 y2 : Qc) :
  @concat (list Qc) <$> multiview_A [x1; y1; x2; y2] [P1; P2] =
    single_pt_A P1 P2 [x1; y1] [x2; y2].
Proof.
  unfold multiview_A, single_pt_A, define_row, at_index. simpl.
  repeat match goal with
         | |- context [from_option Ok (Raise IndexError) ?o] => destruct o; simpl
         end; done.
Qed.

(** X11.  [linear_triangulation_single_pt] raises [IndexError], before any
    decomposition, when a point has fewer than two coordinates or a matrix
    fewer than three rows.  Otherwise it decomposes an array of four rows; it
    passes on an exception of the decomposition; it raises [IndexError] when
    [vh] has no row or its last row no entry; and else it returns
    [min(n, 3)] numbers, [n] being the length of the last row of [vh]. *)
Theorem linear_triangulation_single_pt_shape (P1 P2 : matrix) (pt1 pt2 : list Qc) :
  if bool_decide (2 ≤ length pt1 ∧ 2 ≤ length pt2 ∧ 3 ≤ length P1 ∧ 3 ≤ length P2)
  then ∃ A,
    single_pt_A P1 P2 pt1 pt2 = Ok A ∧ length A = 4 ∧
    match svd A with
    | Raise e => linear_triangulation_single_pt svd P1 P2 pt1 pt2 = Raise e
    | Ok vh =>
        match last vh with
        | None => linear_triangulation_single_pt svd P1 P2 pt1 pt2 = Raise IndexError
        | Some r =>
            if bool_decide (r = [])
            then linear_triangulation_single_pt svd P1 P2 pt1 pt2 = Raise IndexError
            else ∃ pt_3d,
                   linear_triangulation_single_pt svd P1 P2 pt1 pt2 = Ok pt_3d ∧
                   length pt_3d = length r `min` 3
        end
    end
  else linear_triangulation_single_pt svd P1 P2 pt1 pt2 = Raise IndexError.
Proof.
  unfold linear_triangulation_single_pt.
  case_bool_decide as Hshape.
  - assert (∃ A, single_pt_A P1 P2 pt1 pt2 = Ok A ∧ length A = 4) as (A & HA & HlenA).
    { unfold single_pt_A. destruct Hshape as (H1 & H2 & H3 & H4).
      destruct (at_index_Ok pt1 0) as (x1 & -> & _); [lia|].
      destruct (at_index_Ok pt1 1) as (y1 & -> & _); [lia|].
      destruct (at_index_Ok pt2 0) as (x2 & -> & _); [lia|].
      destruct (at_index_Ok pt2 1) as (y2 & -> & _); [lia|].
      destruct (at_index_Ok P1 2) as (r12 & -> & _); [lia|].
      destruct (at_index_Ok P1 0) as (r10 & -> & _); [lia|].
      destruct (at_index_Ok P1 1) as (r11 & -> & _); [lia|].
      destruct (at_index_Ok P2 2) as (r22 & -> & _); [lia|].
      destruct (at_index_Ok P2 0) as (r20 & -> & _); [lia|].
      destruct (at_index_Ok P2 1) as (r21 & -> & _); [lia|].
      simpl. eexists. done. }
    exists A. split; [done|]. split; [done|]. rewrite HA, ret_bind.
    destruct (svd A) as [vh|e]; [|done]. rewrite ret_bind.
    destruct (last vh) as [r|]; [|done]. simpl.
    case_bool_decide as Hr; [by subst r|].
    destruct (last r) as [d|] eqn:Hd.
    + simpl. eexists. split; [done|]. rewrite length_fmap, length_take. lia.
    + apply last_None in Hd. done.
  - unfold single_pt_A.
    destruct (decide (length pt1 ≤ 0)); [by rewrite (at_index_Raise pt1 0)|].
    destruct (at_index_Ok pt1 0) as (x1 & -> & _); [lia|]. simpl.
    destruct (decide (length pt1 ≤ 1)); [by rewrite (at_index_Raise pt1 1)|].
    destruct (at_index_Ok pt1 1) as (y1 & -> & _); [lia|]. simpl.
    destruct (decide (length pt2 ≤ 0)); [by rewrite (at_index_Raise pt2 0)|].
    destruct (at_index_Ok pt2 0) as (x2 & -> & _); [lia|]. simpl.
    destruct (decide (length pt2 ≤ 1)); [by rewrite (at_index_Raise pt2 1)|].
    destruct (at_index_Ok pt2 1) as (y2 & -> & _); [lia|]. simpl.
    destruct (decide (length P1 ≤ 2)); [by rewrite (at_index_Raise P1 2)|].
    destruct (at_index_Ok P1 2) as (r12 & -> & _); [lia|]. simpl.
    destruct (at_index_Ok P1 0) as (r10 & -> & _); [lia|]. simpl.
    destruct (at_index_Ok P1 1) as (r11 & -> & _); [lia|]. simpl.
    destruct (decide (length P2 ≤ 2)); [by rewrite (at_index_Raise P2 2)|].
    exfalso. apply Hshape. lia.
Qed.
End TwoView.

(** ** Reprojection errors *)

Lemma Qcdiv_scale (s a c : Qc) :
  s ≠ Q2Qc 0 → c ≠ Q2Qc 0 → ((s * a) / (s * c))%Qc = (a / c)%Qc.
Proof. intros Hs Hc. field. done. Qed.

Lemma row_dot_scale (s : Qc) (r : pt4) (X : pt3) :
  row_dot (pt4_scale s r) X = (s * row_dot r X)%Qc.
Proof. unfold row_dot, pt4_scale; simpl. ring. Qed.

Lemma reproject_scale (s : Qc) (P : proj_matrix) (X : pt3) :
  s ≠ Q2Qc 0 → row_dot (P_row2 P) X ≠ Q2Qc 0 →
  reproject (proj_matrix_scale s P) X = reproject P X.
Proof.
  intros Hs Hw. unfold reproject, proj_matrix_scale; simpl.
  rewrite !row_dot_scale. by rewrite !Qcdiv_scale.
Qed.

Lemma np_sub_rows_same_length (a b : list pt2) :
  length a = length b →
  np_sub_rows a b = Ok (zip_with (λ p g, Pt2 (pu p - pu g) (pv p - pv g)) a b).
Proof. intros Hlen. unfold np_sub_rows. by rewrite bool_decide_eq_true_2. Qed.

Lemma np_sub_rows_mismatch (a b : list pt2) :
  length a ≠ length b → length a ≠ 1 → length b ≠ 1 →
  np_sub_rows a b = Raise ValueError.
Proof.
  intros Hne Ha Hb. unfold np_sub_rows. rewrite bool_decide_eq_false_2 by done.
  destruct a as [|p [|p' a]], b as [|g [|g' b]]; simpl in *; done.
Qed.

Lemma np_sub_rows_Raise (a b : list pt2) e : np_sub_rows a b = Raise e → e = ValueError.
Proof.
  unfold np_sub_rows. case_bool_decide; [done|].
  destruct a as [|p [|p' a]], b as [|g [|g' b]]; simpl; congruence.
Qed.

Lemma Qc_half_half_zero (x : Qc) : (x / Q2Qc 2 / Q2Qc 2)%Qc = Q2Qc 0 ↔ x = Q2Qc 0.
Proof.
  assert (H2 : Q2Qc 2 ≠ Q2Qc 0).
  { intros H%Q2Qc_eq_iff. unfold Qeq in H. simpl in H. lia. }
  split.
  - intros Hx. replace x with ((x / Q2Qc 2 / Q2Qc 2) * (Q2Qc 2 * Q2Qc 2))%Qc
      by (field; done).
    rewrite Hx. ring.
  - intros ->. field. done.
Qed.

Lemma avg_residual_nonneg (d : pt2) : (Q2Qc 0 ≤ avg_residual d)%Qc.
Proof.
  unfold avg_residual.
  assert (Hsum : (Q2Qc 0 ≤ Qcabs (pu d) + Qcabs (pv d))%Qc).
  { replace (Q2Qc 0) with (Q2Qc 0 + Q2Qc 0)%Qc by ring.
    apply Qcplus_le_compat; apply Qcabs_nonneg. }
  assert (Hhalf : ∀ x, (Q2Qc 0 ≤ x)%Qc → (Q2Qc 0 ≤ x / Q2Qc 2)%Qc).
  { intros x Hx. unfold Qcdiv.
    replace (Q2Qc 0) with (Q2Qc 0 * / Q2Qc 2)%Qc by ring.
    apply Qcmult_le_compat_r; [done|]. unfold Qcle. simpl. done. }
  by apply Hhalf, Hhalf.
Qed.

Lemma avg_residual_zero (d : pt2) :
  avg_residual d = Q2Qc 0 ↔ pu d = Q2Qc 0 ∧ pv d = Q2Qc 0.
Proof.
  unfold avg_residual. rewrite Qc_half_half_zero. split.
  - intros Hsum.
    assert (Hu : Qcabs (pu d) = Q2Qc 0).
    { apply Qcle_antisym; [|apply Qcabs_nonneg].
      apply Qcle_minus_iff.
      replace (Q2Qc 0 + - Qcabs (pu d))%Qc with (Qcabs (pv d)).
      - apply Qcabs_nonneg.
      - replace (Qcabs (pv d))
          with (Qcabs (pu d) + Qcabs (pv d) + - Qcabs (pu d))%Qc by ring.
        rewrite Hsum. ring. }
    assert (Hv : Qcabs (pv d) = Q2Qc 0).
    { rewrite Hu in Hsum. rewrite <-Hsum. ring. }
    split; by apply Qcabs_null.
  - intros [-> ->]. apply Qc_is_canon. reflexivity.
Qed.

Section ReprojectionProperties.
Variable sqrt : Qc → Qc.

(** X12.  In exact arithmetic the reprojection errors do not change when a
    projection matrix is multiplied by a non-zero number, provided no point
    is sent to a zero third homogeneous coordinate (where the source divides
    by zero): [reprojection_error_from_C] then returns the same six arrays (or
    raises the same exception) for [s * P_before] and [s' * P_after] as for
    [P_before] and [P_after]. *)
Theorem reprojection_error_scale_invariant (s s' : Qc)
    (P_before P_after : proj_matrix) (pts_gt : list pt2)
    (pts_3d_before pts_3d_after : list pt3) :
  s ≠ Q2Qc 0 → s' ≠ Q2Qc 0 →
  Forall (λ X, row_dot (P_row2 P_before) X ≠ Q2Qc 0) pts_3d_before →
  Forall (λ X, row_dot (P_row2 P_after) X ≠ Q2Qc 0) pts_3d_after →
  reprojection_error_from_C sqrt (proj_matrix_scale s P_before)
    (proj_matrix_scale s' P_after) pts_gt pts_3d_before pts_3d_after =
  reprojection_error_from_C sqrt P_before P_after pts_gt pts_3d_before pts_3d_after.
Proof.
  intros Hs Hs' Hb Ha. unfold reprojection_error_from_C.
  assert (reproject (proj_matrix_scale s P_before) <$> pts_3d_before
          = reproject P_before <$> pts_3d_before) as ->.
  { apply Forall_fmap_ext. eapply Forall_impl; [exact Hb|].
    intros X HX. by apply reproject_scale. }
  assert (reproject (proj_matrix_scale s' P_after) <$> pts_3d_after
          = reproject P_after <$> pts_3d_after) as ->.
  { apply Forall_fmap_ext. eapply Forall_impl; [exact Ha|].
    intros X HX. by apply reproject_scale. }
  done.
Qed.

(** X13.  With as many ground-truth points as points after adjustment, the
    average residual of a point is never negative, and it is zero exactly
    when the point reprojects onto its ground truth. *)
Theorem avg_residual_zero_iff_exact
    (P_before P_after : proj_matrix) (pts_gt : list pt2)
    (pts_3d_before pts_3d_after : list pt3) (res : reprojection_errors)
    (k : nat) (p g : pt2) :
  reprojection_error_from_C sqrt P_before P_after pts_gt pts_3d_before pts_3d_after
    = Ok res →
  length pts_gt = length pts_3d_after →
  pts_reproj_after res !! k = Some p → pts_gt !! k = Some g →
  ∃ a, avg_residuals res !! k = Some a ∧ (Q2Qc 0 ≤ a)%Qc ∧ (a = Q2Qc 0 ↔ p = g).
Proof.
  unfold reprojection_error_from_C. intros Hrun Hlen Hp Hg.
  rewrite np_sub_rows_same_length in Hrun by (by rewrite length_fmap).
  rewrite ret_bind in Hrun.
  apply bind_Ok in Hrun as (d1 & _ & Hrun). injection Hrun as <-.
  simpl in *.
  exists (avg_residual (Pt2 (pu p - pu g) (pv p - pv g))). split; [|split].
  - rewrite list_lookup_fmap, lookup_zip_with, Hp. simpl. by rewrite Hg.
  - apply avg_residual_nonneg.
  - rewrite avg_residual_zero. simpl. split.
    + intros [Hu Hv]. destruct p as [pu0 pv0], g as [gu gv]; simpl in *. f_equal.
      * replace pu0 with (pu0 - gu + gu)%Qc by ring. rewrite Hu. ring.
      * replace pv0 with (pv0 - gv + gv)%Qc by ring. rewrite Hv. ring.
    + intros ->. split; ring.
Qed.

(** X14.  With the same number [N] of points in the three inputs,
    [reprojection_error_from_C] returns, each of its six arrays has [N]
    entries, and the ground truth comes back as it was given. *)
Theorem reprojection_error_shapes
    (P_before P_after : proj_matrix) (pts_gt : list pt2)
    (pts_3d_before pts_3d_after : list pt3) :
  length pts_3d_before = length pts_gt → length pts_3d_after = length pts_gt →
  ∃ res,
    reprojection_error_from_C sqrt P_before P_after pts_gt pts_3d_before pts_3d_after
      = Ok res ∧
    length (avg_residuals res) = length pts_gt ∧
    length (err_before res) = length pts_gt ∧
    length (err_after res) = length pts_gt ∧
    length (pts_reproj_before res) = length pts_gt ∧
    length (pts_reproj_after res) = length pts_gt ∧
    pts_gt_out res = pts_gt.
Proof.
  intros Hb Ha. unfold reprojection_error_from_C.
  rewrite !np_sub_rows_same_length by (by rewrite length_fmap).
  rewrite !ret_bind. eexists. split; [done|]. simpl.
  rewrite !length_fmap, !length_zip_with, !length_fmap.
  repeat split; lia.
Qed.

(** X15.  When the number of ground-truth points differs from the number of
    points before or after adjustment, and neither of the two numbers is 1,
    [reprojection_error_from_C] raises [ValueError]. *)
Theorem reprojection_error_shape_mismatch
    (P_before P_after : proj_matrix) (pts_gt : list pt2)
    (pts_3d_before pts_3d_after : list pt3) :
  length pts_gt ≠ 1 →
  (length pts_3d_after ≠ length pts_gt ∧ length pts_3d_after ≠ 1) ∨
  (length pts_3d_before ≠ length pts_gt ∧ length pts_3d_before ≠ 1) →
  reprojection_error_from_C sqrt P_before P_after pts_gt pts_3d_before pts_3d_after
    = Raise ValueError.
Proof.
  intros Hg Hmis. unfold reprojection_error_from_C.
  destruct (np_sub_rows (reproject P_after <$> pts_3d_after) pts_gt) as [d|e] eqn:Hd.
  - rewrite ret_bind. destruct Hmis as [[Hne H1]|[Hne H1]].
    + rewrite np_sub_rows_mismatch in Hd; [done|by rewrite length_fmap..|done].
    + rewrite (np_sub_rows_mismatch (reproject P_before <$> pts_3d_before));
        [done|by rewrite length_fmap..|done].
  - by apply np_sub_rows_Raise in Hd as ->.
Qed.
End ReprojectionProperties.

(** ** The tiles cover the raster *)

Lemma elem_of_np_arange (size m : Z) (lims : list Z) (row : Z) :
  (0 < m)%Z → np_arange size m = Ok lims →
  row ∈ lims ↔ ∃ k : Z, (0 ≤ k ∧ row = k * m ∧ row < size)%Z.
Proof.
  intros Hm. unfold np_arange. rewrite bool_decide_eq_false_2 by lia.
  intros [= <-]. rewrite list_elem_of_fmap.
  pose proof (Z.div_mod (- size) m ltac:(lia)) as Hdm.
  pose proof (Z.mod_pos_bound (- size) m Hm) as Hmod.
  set (qq := ((- size) `div` m)%Z) in *. split.
  - intros (k & -> & Hk%elem_of_seq). exists (Z.of_nat k).
    split; [lia|]. split; [done|].
    assert (Z.of_nat k + 1 ≤ - qq)%Z by lia. nia.
  - intros (k & Hk & -> & Hlt). exists (Z.to_nat k). split; [lia|].
    apply elem_of_seq. split; [lia|]. simpl.
    assert (k < - qq)%Z by nia. lia.
Qed.

Lemma in_tile_iff (size m row r : Z) :
  (0 < m)%Z → (row < size)%Z →
  (row ≤ r < tile_limit size m row)%Z ↔ (row ≤ r < row + m ∧ r < size)%Z.
Proof. intros Hm Hrow. unfold tile_limit. case_bool_decide; lia. Qed.

Lemma tile_start_unique (m k r : Z) :
  (0 < m)%Z → (k * m ≤ r < k * m + m)%Z → (k * m = m * (r `div` m))%Z.
Proof.
  intros Hm Hr. assert (r `div` m = k)%Z as ->; [|lia].
  symmetry. apply (Z.div_unique r m k (r - k * m)); lia.
Qed.

(** X16.  For a positive tile size, every pixel of the [h x w] raster lies
    in one window of the tiling, and in no other. *)
Theorem tile_windows_partition (h w m : Z) (grid : list ((Z * Z) * (Z * Z))) (r c : Z) :
  (0 < m)%Z → tile_windows h w m = Ok grid →
  (0 ≤ r < h)%Z → (0 ≤ c < w)%Z →
  ∃ win, win ∈ grid ∧ in_window win r c ∧
         ∀ win', win' ∈ grid → in_window win' r c → win' = win.
Proof.
  intros Hm Hgrid Hr Hc. unfold tile_windows in Hgrid.
  apply bind_Ok in Hgrid as (y_lims & Hy & Hgrid).
  apply bind_Ok in Hgrid as (x_lims & Hx & Hgrid). injection Hgrid as <-.
  pose proof (Z.div_mod r m ltac:(lia)) as Hrdm.
  pose proof (Z.mod_pos_bound r m Hm) as Hrmod.
  pose proof (Z.div_mod c m ltac:(lia)) as Hcdm.
  pose proof (Z.mod_pos_bound c m Hm) as Hcmod.
  pose proof (Z.div_pos r m ltac:(lia) Hm) as Hrq.
  pose proof (Z.div_pos c m ltac:(lia) Hm) as Hcq.
  set (row0 := (m * (r `div` m))%Z). set (col0 := (m * (c `div` m))%Z).
  assert (Hrow0 : row0 ∈ y_lims).
  { apply (elem_of_np_arange h m); [done..|]. exists (r `div` m)%Z. subst row0. lia. }
  assert (Hcol0 : col0 ∈ x_lims).
  { apply (elem_of_np_arange w m); [done..|]. exists (c `div` m)%Z. subst col0. lia. }
  exists ((row0, tile_limit h m row0), (col0, tile_limit w m col0)).
  split; [|split].
  - apply list_elem_of_bind. exists row0. split; [|done].
    apply list_elem_of_fmap. by exists col0.
  - unfold in_window. simpl.
    rewrite (in_tile_iff h m row0 r), (in_tile_iff w m col0 c) by (subst row0 col0; lia).
    subst row0 col0. lia.
  - intros win' (row & (col & -> & Hcol)%list_elem_of_fmap & Hrow)%list_elem_of_bind Hin.
    apply (elem_of_np_arange h m) in Hrow as (k & Hk & -> & Hklt); [|done..].
    apply (elem_of_np_arange w m) in Hcol as (k' & Hk' & -> & Hklt'); [|done..].
    unfold in_window in Hin. simpl in Hin.
    rewrite (in_tile_iff h m), (in_tile_iff w m) in Hin by done.
    rewrite (tile_start_unique m k r), (tile_start_unique m k' c) by lia.
    done.
Qed.

(** X17.  For a positive tile size, every window of the tiling is inside the
    raster, is not empty, and has at most [tile_size] rows and columns. *)
Theorem tile_windows_bounds (h w m : Z) (grid : list ((Z * Z) * (Z * Z)))
    (r0 r1 c0 c1 : Z) :
  (0 < m)%Z → tile_windows h w m = Ok grid →
  ((r0, r1), (c0, c1)) ∈ grid →
  (0 ≤ r0 < r1 ∧ r1 ≤ h ∧ r1 - r0 ≤ m)%Z ∧ (0 ≤ c0 < c1 ∧ c1 ≤ w ∧ c1 - c0 ≤ m)%Z.
Proof.
  intros Hm Hgrid Hin. unfold tile_windows in Hgrid.
  apply bind_Ok in Hgrid as (y_lims & Hy & Hgrid).
  apply bind_Ok in Hgrid as (x_lims & Hx & Hgrid). injection Hgrid as <-.
  apply list_elem_of_bind in Hin as (row & (col & Heq & Hcol)%list_elem_of_fmap & Hrow).
  injection Heq as -> -> -> ->.
  apply (elem_of_np_arange h m) in Hrow as (k & Hk & -> & Hklt); [|done..].
  apply (elem_of_np_arange w m) in Hcol as (k' & Hk' & -> & Hklt'); [|done..].
  unfold tile_limit. repeat case_bool_decide; nia.
Qed.


(** ** Negative camera indices *)

Lemma py_getitem_py_wrap {A} (l : list A) (c : Z) :
  (- Z.of_nat (length l) ≤ c < Z.of_nat (length l))%Z →
  py_getitem l c =
    from_option Ok (Raise IndexError) (l !! Z.to_nat (py_wrap (length l) c)).
Proof.
  intros Hc. unfold py_wrap. case_bool_decide.
  - rewrite py_getitem_negative by done. by rewrite bool_decide_eq_true_2 by lia.
  - unfold py_getitem, py_index. by rewrite bool_decide_eq_true_2 by lia.
Qed.

Lemma py_getitem_wrapped {A} (l : list A) (c : Z) :
  (- Z.of_nat (length l) ≤ c)%Z → py_getitem l c = py_getitem l (py_wrap (length l) c).
Proof.
  intros Hc. unfold py_wrap. case_bool_decide; [|done].
  rewrite py_getitem_negative by done. rewrite bool_decide_eq_true_2 by lia.
  unfold py_getitem, py_index. rewrite bool_decide_eq_true_2 by lia. done.
Qed.

Lemma every_other_length_even {A} (k : nat) :
  ∀ l : list A, length l = 2 * k → length (every_other l) = k.
Proof.
  induction k as [|k IH]; intros l Hl.
  - by destruct l.
  - destruct l as [|x [|y l]]; simpl in Hl; [lia..|].
    change (every_other (x :: y :: l)) with (x :: every_other l).
    simpl. f_equal. apply IH. lia.
Qed.

Lemma np_T_nil (k : nat) : np_T k [] = replicate k [].
Proof.
  unfold np_T. generalize 0. induction k as [|k IH]; intros s; simpl; [done|].
  by rewrite IH.
Qed.

(** [C[-2:0]] is empty, so [obs2d] of camera [-1] has no column. *)
Lemma obs2d_minus_one (C : array2) (idx : list nat) :
  obs2d C (-1) idx = replicate (length idx) [].
Proof.
  unfold obs2d.
  assert (py_slice (rows C) (2 * -1) (2 * -1 + 2) = []) as ->.
  { unfold py_slice, slice_bound.
    rewrite (bool_decide_eq_false_2 (2 * -1 + 2 < 0)%Z) by lia.
    replace (Z.to_nat (Z.of_nat (length (rows C)) `min` (2 * -1 + 2))) with 0 by lia.
    done. }
  apply np_T_nil.
Qed.

Lemma obs2d_wrapped (C : array2) (c : Z) (idx : list nat) :
  length (rows C) = 2 * n_cam C → (- Z.of_nat (n_cam C) ≤ c)%Z →
  (c < Z.of_nat (n_cam C))%Z → c ≠ (-1)%Z →
  obs2d C c idx = obs2d C (py_wrap (n_cam C) c) idx.
Proof.
  intros Hlen Hlo Hhi Hm1. unfold py_wrap. case_bool_decide as Hneg; [|done].
  unfold obs2d. f_equal. f_equal.
  rewrite (py_slice_negative_camera (rows C) (n_cam C) c) by (done || lia).
  rewrite bool_decide_eq_false_2 by done.
  unfold py_slice, slice_bound. rewrite Hlen.
  rewrite !bool_decide_eq_false_2 by lia.
  replace (Z.to_nat (Z.of_nat (2 * n_cam C) `min` (2 * (Z.of_nat (n_cam C) + c))))
    with (2 * Z.to_nat (Z.of_nat (n_cam C) + c)) by lia.
  f_equal. lia.
Qed.

Section NegativeIndices.
Context {camera : Type} `{!Externals camera}.
Variable C : array2.
Variable cameras : list camera.
Variable cam_model : string.

Lemma loop_body_wrapped (c_i c_j : Z) (acc : list pt3 * list Qc) :
  length (rows C) = 2 * n_cam C → length cameras = n_cam C →
  (- Z.of_nat (n_cam C) ≤ c_i < Z.of_nat (n_cam C))%Z →
  (- Z.of_nat (n_cam C) ≤ c_j < Z.of_nat (n_cam C))%Z →
  c_i ≠ (-1)%Z → c_j ≠ (-1)%Z →
  loop_body C cameras cam_model acc (c_i, c_j) =
    loop_body C cameras cam_model acc (py_wrap (n_cam C) c_i, py_wrap (n_cam C) c_j).
Proof.
  intros Hrows Hcams Hi Hj Hi1 Hj1.
  assert (Hmask : length (mask C) = n_cam C).
  { unfold mask. rewrite length_fmap. by apply every_other_length_even. }
  assert (Hwi : (0 ≤ py_wrap (n_cam C) c_i < Z.of_nat (n_cam C))%Z)
    by (unfold py_wrap; case_bool_decide; lia).
  assert (Hwj : (0 ≤ py_wrap (n_cam C) c_j < Z.of_nat (n_cam C))%Z)
    by (unfold py_wrap; case_bool_decide; lia).
  destruct acc as [avg count]. unfold loop_body, in_range.
  rewrite !bool_decide_eq_true_2 by lia. simpl.
  rewrite (py_getitem_wrapped (mask C) c_i), (py_getitem_wrapped (mask C) c_j) by lia.
  rewrite Hmask.
  destruct (py_getitem (mask C) (py_wrap (n_cam C) c_i)) as [mask_i|]; [|done].
  destruct (py_getitem (mask C) (py_wrap (n_cam C) c_j)) as [mask_j|]; [|done].
  simpl. case_bool_decide; [done|].
  rewrite <-!obs2d_wrapped by (done || lia).
  assert (Htri : ∀ o1 o2,
    triangulate_pair cameras cam_model c_i c_j o1 o2 =
    triangulate_pair cameras cam_model (py_wrap (n_cam C) c_i) (py_wrap (n_cam C) c_j)
      o1 o2).
  { intros o1 o2. unfold triangulate_pair.
    rewrite (py_getitem_wrapped cameras c_i), (py_getitem_wrapped cameras c_j) by lia.
    by rewrite Hcams. }
  by rewrite Htri.
Qed.

(** C10, as the code has it.  A pair with a negative index passes the range
    test as soon as both indices are below [n_cam], and its iteration is not
    a skip:
    - a negative index [c] reads the mask from the end ([mask[len(mask) + c]],
      or [IndexError] when [c < -len(mask)]), and on a matrix of [2 * n_cam]
      rows the slice [C[2 * c : 2 * c + 2]] holds the two rows of camera
      [n_cam + c], except for [c = -1], where the slice [-2 : 0] is empty;
    - with an index below [-len(mask)] the iteration raises [IndexError];
    - otherwise the iteration runs the body of the loop on the mask rows at
      the wrapped positions;
    - on a matrix of [2 * n_cam] rows with [n_cam] cameras, a pair whose
      indices are not below [-n_cam] and are not [-1] is processed exactly as
      the pair of the wrapped indices, in the iteration and in the result of
      [init_pts3d];
    - the observations [obs2d] of index [-1] have no column. *)
Theorem negative_index_passes_range_test (c_i c_j : Z) :
  (c_i < 0 ∨ c_j < 0)%Z →
  (c_i < Z.of_nat (n_cam C))%Z → (c_j < Z.of_nat (n_cam C))%Z →
  in_range C c_i c_j = true ∧
  (∀ c, c = c_i ∨ c = c_j → (c < 0)%Z →
    py_getitem (mask C) c =
      (if bool_decide (- Z.of_nat (length (mask C)) ≤ c)%Z
       then from_option Ok (Raise IndexError)
              (mask C !! Z.to_nat (Z.of_nat (length (mask C)) + c))
       else Raise IndexError) ∧
    (length (rows C) = 2 * n_cam C → (- Z.of_nat (n_cam C) ≤ c)%Z →
     py_slice (rows C) (2 * c) (2 * c + 2) =
       if bool_decide (c = -1)%Z then []
       else take 2 (drop (2 * Z.to_nat (Z.of_nat (n_cam C) + c)) (rows C)))) ∧
  ((c_i < - Z.of_nat (length (mask C)) ∨ c_j < - Z.of_nat (length (mask C)))%Z →
   ∀ acc, loop_body C cameras cam_model acc (c_i, c_j) = Raise IndexError) ∧
  ((- Z.of_nat (length (mask C)) ≤ c_i)%Z → (- Z.of_nat (length (mask C)) ≤ c_j)%Z →
   ∃ mask_i mask_j,
     mask C !! Z.to_nat (py_wrap (length (mask C)) c_i) = Some mask_i ∧
     mask C !! Z.to_nat (py_wrap (length (mask C)) c_j) = Some mask_j ∧
     ∀ acc, loop_body C cameras cam_model acc (c_i, c_j) =
       let pt_indices := np_where (zip_with andb mask_i mask_j) in
       if bool_decide (length pt_indices = 0) then Ok acc
       else
         new_pts3d ← triangulate_pair cameras cam_model c_i c_j
                       (obs2d C c_i pt_indices) (obs2d C c_j pt_indices);
         new_values ← np_setitem (np_zeros3 (n_pts C)) pt_indices
                         (pt3_float32 <$> (new_pts3d : list pt3));
         update_avg_pts3d acc.1 acc.2 new_values pt_indices) ∧
  (length (rows C) = 2 * n_cam C → length cameras = n_cam C →
   (- Z.of_nat (n_cam C) ≤ c_i)%Z → (- Z.of_nat (n_cam C) ≤ c_j)%Z →
   c_i ≠ (-1)%Z → c_j ≠ (-1)%Z →
   (∀ acc, loop_body C cameras cam_model acc (c_i, c_j) =
           loop_body C cameras cam_model acc
             (py_wrap (n_cam C) c_i, py_wrap (n_cam C) c_j)) ∧
   ∀ pre post,
     init_pts3d C cameras cam_model (pre ++ (c_i, c_j) :: post) =
     init_pts3d C cameras cam_model
       (pre ++ (py_wrap (n_cam C) c_i, py_wrap (n_cam C) c_j) :: post)) ∧
  (∀ c idx, c = c_i ∨ c = c_j → c = (-1)%Z → obs2d C c idx = replicate (length idx) []).
Proof.
  intros _ Hi Hj.
  assert (Hr : in_range C c_i c_j = true).
  { unfold in_range. by rewrite !bool_decide_eq_true_2. }
  pose proof (mask_length C) as Hm.
  split; [done|]. split; [|split; [|split; [|split]]].
  - intros c _ Hc. split.
    + by apply py_getitem_negative.
    + intros Hlen Hlo. apply py_slice_negative_camera; [done|lia].
  - intros Hlow [avg count]. unfold loop_body. rewrite Hr.
    destruct (py_getitem (mask C) c_i) as [mask_i|e] eqn:Hmi.
    + destruct Hlow as [Hlow|Hlow].
      * rewrite py_getitem_below in Hmi by done. done.
      * simpl. by rewrite py_getitem_below.
    + by apply py_getitem_Raise in Hmi as ->.
  - intros Hlo_i Hlo_j.
    pose proof (py_getitem_py_wrap (mask C) c_i ltac:(lia)) as Hgi.
    pose proof (py_getitem_py_wrap (mask C) c_j ltac:(lia)) as Hgj.
    destruct (lookup_lt_is_Some_2 (mask C) (Z.to_nat (py_wrap (length (mask C)) c_i)))
      as [mask_i Hmi]; [unfold py_wrap; case_bool_decide; lia|].
    destruct (lookup_lt_is_Some_2 (mask C) (Z.to_nat (py_wrap (length (mask C)) c_j)))
      as [mask_j Hmj]; [unfold py_wrap; case_bool_decide; lia|].
    exists mask_i, mask_j. split; [done|]. split; [done|].
    intros [avg count]. unfold loop_body. rewrite Hr, Hgi, Hgj, Hmi, Hmj. done.
  - intros Hrows Hcams Hlo_i Hlo_j Hi1 Hj1.
    assert (Hloop : ∀ acc, loop_body C cameras cam_model acc (c_i, c_j) =
              loop_body C cameras cam_model acc
                (py_wrap (n_cam C) c_i, py_wrap (n_cam C) c_j)).
    { intros acc. apply loop_body_wrapped; (done || lia). }
    split; [done|]. intros pre post. unfold init_pts3d, aggregate.
    rewrite !for_each_app. f_equal.
    destruct (for_each _ _ pre) as [acc|]; [|done].
    rewrite !ret_bind, !for_each_cons. by rewrite Hloop.
  - intros c idx _ ->. apply obs2d_minus_one.
Qed.
End NegativeIndices.

(** ** Concrete runs of the further properties *)

Section MoreRuns.
Import Toy.

Lemma init_pts3d_returns_in_contract_witness :
  n_cam C3 ≤ length cams3 ∧
  Forall (λ p : Z * Z, (0 ≤ p.1)%Z ∧ (0 ≤ p.2)%Z) pairs3 ∧
  ∃ avg, init_pts3d C3 cams3 "affine" pairs3 = Ok avg.
Proof.
  assert (Hcover : n_cam C3 ≤ length cams3) by (vm_compute; lia).
  assert (Hpairs : Forall (λ p : Z * Z, (0 ≤ p.1)%Z ∧ (0 ≤ p.2)%Z) pairs3)
    by (repeat constructor; simpl; lia).
  split; [exact Hcover|]. split; [exact Hpairs|].
  apply (init_pts3d_returns_in_contract C3 cams3 "affine"); [| |exact Hcover|exact Hpairs].
  - intros P1 P2 pts1 pts2 Hlen. eexists. split; [reflexivity|].
    rewrite length_zip_with. lia.
  - intros P1 P2 pts1 pts2 Hlen. eexists _, _. split; [reflexivity|].
    rewrite length_zip_with. lia.
Defined.

Lemma init_pts3d_index_below_mask_witness :
  init_pts3d C3 cams3 "affine" [(0, 1)]%Z
    = Ok [Pt3 (q 2) (q 5) (q 12); Pt3 (q 3) (q 6) (q 14); pt3_zero] ∧
  init_pts3d C3 cams3 "affine" [(0, 1); (-4, 1); (1, 2)]%Z = Raise IndexError.
Proof.
  assert (Hpre : init_pts3d C3 cams3 "affine" [(0, 1)]%Z
                 = Ok [Pt3 (q 2) (q 5) (q 12); Pt3 (q 3) (q 6) (q 14); pt3_zero])
    by compute_done.
  split; [exact Hpre|].
  apply (init_pts3d_index_below_mask C3 cams3 "affine" [(0, 1)]%Z [(1, 2)]%Z
           (-4) 1 _ Hpre).
  - vm_compute. reflexivity.
  - vm_compute. reflexivity.
  - left. vm_compute. reflexivity.
Defined.

Lemma init_pts3d_missing_camera_witness :
  co_observed C3 0 (0, 1)%Z = true ∧
  init_pts3d C3 (take 1 cams3) "affine" [(0, 1); (1, 2)]%Z = Raise IndexError.
Proof.
  assert (Hco : co_observed C3 0 (0, 1)%Z = true) by reflexivity.
  split; [exact Hco|].
  apply (init_pts3d_missing_camera C3 (take 1 cams3) "affine" [] [(1, 2)]%Z 0 1
           (np_zeros3 (n_pts C3)) 0).
  - reflexivity.
  - vm_compute. lia.
  - exact Hco.
  - lia.
  - lia.
  - right. vm_compute. discriminate.
Defined.

Lemma loop_body_no_common_track_witness :
  loop_body Samples.C_apart (@nil camera) "affine" ([pt3_zero; pt3_zero], [q 0; q 0])
    (0, 1)%Z = Ok ([pt3_zero; pt3_zero], [q 0; q 0]).
Proof.
  apply (loop_body_no_common_track Samples.C_apart (@nil camera) "affine" 0 1).
  - vm_compute. discriminate.
  - vm_compute. discriminate.
  - intros t Ht. assert (t = 0 ∨ t = 1) as [-> | ->]
      by (unfold n_pts in Ht; simpl in Ht; lia); reflexivity.
Defined.

Lemma init_pts3d_pair_is_local_witness :
  init_pts3d C3 cams3 "affine" pairs3 = Ok avg3 ∧
  co_observed C3 1 (1, 2)%Z = false ∧
  ∃ avg', init_pts3d C3 cams3 "affine" [(0, 1); (0, 2)]%Z = Ok avg' ∧
          avg' !! 1 = avg3 !! 1.
Proof.
  assert (Hrun : init_pts3d C3 cams3 "affine" ([(0, 1)] ++ (1, 2) :: [(0, 2)])%Z
                 = Ok avg3) by compute_done.
  assert (Hco : co_observed C3 1 (1, 2)%Z = false) by reflexivity.
  split; [exact Hrun|]. split; [exact Hco|].
  destruct (init_pts3d_pair_is_local C3 cams3 "affine" _ _ _ _ Hrun)
    as (avg' & Hrun' & Hsame).
  exists avg'. split; [exact Hrun'|]. exact (Hsame 1 Hco).
Defined.


Lemma update_avg_pts3d_pointwise_witness :
  ∃ avg' count',
    update_avg_pts3d [pt3_zero; pt3_zero; pt3_zero] [q 0; q 0; q 0]
      [Pt3 (q 1) (q 2) (q 3); pt3_zero; Pt3 (q 4) (q 5) (q 6)] [0; 0; 2]
      = Ok (avg', count') ∧
    count' !! 0 = Some (q 0 + 1)%Qc ∧ count' !! 1 = Some (q 0).
Proof.
  destruct (update_avg_pts3d_pointwise [pt3_zero; pt3_zero; pt3_zero] [q 0; q 0; q 0]
              [Pt3 (q 1) (q 2) (q 3); pt3_zero; Pt3 (q 4) (q 5) (q 6)] [0; 0; 2])
    as (avg' & count' & Hrun & _ & _ & Hout & Hin).
  - reflexivity.
  - reflexivity.
  - repeat constructor.
  - exists avg', count'. split; [exact Hrun|]. split.
    + refine (proj1 (Hin 0 (q 0) pt3_zero (Pt3 (q 1) (q 2) (q 3)) _ eq_refl eq_refl eq_refl)).
      left.
    + refine (proj2 (Hout 1 _)). intros Hin1. vm_compute in Hin1.
      repeat (apply elem_of_cons in Hin1 as [Hin1|Hin1]; [discriminate|]).
      by apply elem_of_nil in Hin1.
Defined.

Lemma init_pts3d_heap_refines_witness :
  heap3 !! 1%positive = Some (Arr2 C3) ∧
  ∃ h' l_out, init_pts3d_heap 1%positive cams3 "affine" heap3 pairs3 = Ok (h', l_out) ∧
              h' !! l_out = Some (ArrPts avg3).
Proof.
  assert (HC : heap3 !! 1%positive = Some (Arr2 C3)) by reflexivity.
  assert (Hrun : init_pts3d C3 cams3 "affine" pairs3 = Ok avg3) by compute_done.
  split; [exact HC|].
  pose proof (init_pts3d_heap_refines 1%positive cams3 "affine" heap3 C3 pairs3 HC)
    as Href.
  rewrite Hrun in Href. exact Href.
Defined.
Lemma negative_index_passes_range_test_witness :
  (-3 < 0 ∨ 1 < 0)%Z ∧
  (-3 < Z.of_nat (n_cam C3))%Z ∧ (1 < Z.of_nat (n_cam C3))%Z ∧
  in_range C3 (-3) 1 = true ∧
  py_getitem (mask C3) (-3) = Ok [true; true; false] ∧
  py_slice (rows C3) (2 * -3) (2 * -3 + 2) = take 2 (rows C3) ∧
  init_pts3d C3 cams3 "affine" ([] ++ (-3, 1)%Z :: []) =
    init_pts3d C3 cams3 "affine" ([] ++ (0, 1)%Z :: []) ∧
  init_pts3d C3 cams3 "affine" [(-3, 1)%Z]
    = Ok [Pt3 (q 2) (q 5) (q 12); Pt3 (q 3) (q 6) (q 14); pt3_zero].
Proof.
  assert (Hneg : (-3 < 0 ∨ 1 < 0)%Z) by (left; lia).
  assert (Hi : (-3 < Z.of_nat (n_cam C3))%Z) by (vm_compute; reflexivity).
  assert (Hj : (1 < Z.of_nat (n_cam C3))%Z) by (vm_compute; reflexivity).
  destruct (negative_index_passes_range_test C3 cams3 "affine" (-3) 1 Hneg Hi Hj)
    as (Hr & Hidx & _ & _ & Hwrap & _).
  destruct (Hidx (-3)%Z (or_introl eq_refl) ltac:(lia)) as [Hmask Hslice].
  destruct Hwrap as [_ Hinit].
  { reflexivity. }
  { reflexivity. }
  { vm_compute. discriminate. }
  { vm_compute. discriminate. }
  { discriminate. }
  { discriminate. }
  split; [exact Hneg|]. split; [exact Hi|]. split; [exact Hj|].
  split; [exact Hr|]. split; [|split; [|split]].
  - rewrite Hmask. compute_done.
  - rewrite Hslice; [compute_done | compute_done | vm_compute; discriminate].
  - exact (Hinit [] []).
  - compute_done.
Defined.
End MoreRuns.

Section MetricsRuns.
Import Samples.

Lemma reprojection_error_scale_invariant_witness :
  q 2 ≠ Q2Qc 0 ∧
  Forall (λ X, row_dot (P_row2 P_id) X ≠ Q2Qc 0) pts_3d ∧
  reprojection_error_from_C root (proj_matrix_scale (q 2) P_id)
    (proj_matrix_scale (q 2) P_id) pts_gt pts_3d pts_3d =
  reprojection_error_from_C root P_id P_id pts_gt pts_3d pts_3d.
Proof.
  assert (Hs : q 2 ≠ Q2Qc 0) by (intros H%Q2Qc_eq_iff; discriminate).
  assert (Hw : Forall (λ X, row_dot (P_row2 P_id) X ≠ Q2Qc 0) pts_3d)
    by (repeat constructor; intros H%Q2Qc_eq_iff; discriminate).
  split; [exact Hs|]. split; [exact Hw|].
  exact (reprojection_error_scale_invariant root (q 2) (q 2) P_id P_id pts_gt
           pts_3d pts_3d Hs Hs Hw Hw).
Defined.

Lemma avg_residual_zero_iff_exact_witness :
  reprojection_error_from_C root P_id P_id pts_gt pts_3d pts_3d = Ok errors ∧
  ∃ a, avg_residuals errors !! 0 = Some a ∧ (Q2Qc 0 ≤ a)%Qc ∧
       (a = Q2Qc 0 ↔ Pt2 (q 1) (q 2) = Pt2 (q 1) (q 2)).
Proof.
  assert (Hrun : reprojection_error_from_C root P_id P_id pts_gt pts_3d pts_3d
                 = Ok errors) by compute_done.
  split; [exact Hrun|].
  exact (avg_residual_zero_iff_exact root P_id P_id pts_gt pts_3d pts_3d errors 0
           (Pt2 (q 1) (q 2)) (Pt2 (q 1) (q 2)) Hrun eq_refl eq_refl eq_refl).
Defined.

Lemma reprojection_error_shapes_witness :
  ∃ res,
    reprojection_error_from_C root P_id P_id pts_gt pts_3d pts_3d = Ok res ∧
    length (avg_residuals res) = length pts_gt ∧
    length (err_before res) = length pts_gt ∧
    length (err_after res) = length pts_gt ∧
    length (pts_reproj_before res) = length pts_gt ∧
    length (pts_reproj_after res) = length pts_gt ∧
    pts_gt_out res = pts_gt.
Proof.
  exact (reprojection_error_shapes root P_id P_id pts_gt pts_3d pts_3d eq_refl eq_refl).
Defined.

Lemma reprojection_error_shape_mismatch_witness :
  reprojection_error_from_C root P_id P_id pts_gt pts_3d (pts_3d ++ pts_3d)
    = Raise ValueError.
Proof.
  apply (reprojection_error_shape_mismatch root P_id P_id pts_gt pts_3d (pts_3d ++ pts_3d)).
  - simpl. lia.
  - left. simpl. lia.
Defined.

Lemma tile_windows_partition_witness :
  tile_windows 5 3 2 = Ok grid_5_3 ∧
  ∃ win, win ∈ grid_5_3 ∧ in_window win 4 2 ∧
         ∀ win', win' ∈ grid_5_3 → in_window win' 4 2 → win' = win.
Proof.
  assert (Hgrid : tile_windows 5 3 2 = Ok grid_5_3) by reflexivity.
  split; [exact Hgrid|].
  apply (tile_windows_partition 5 3 2 grid_5_3 4 2); [lia|exact Hgrid|lia|lia].
Defined.

Lemma tile_windows_bounds_witness :
  tile_windows 5 3 2 = Ok grid_5_3 ∧
  ((0 ≤ 4 < 5 ∧ 5 ≤ 5 ∧ 5 - 4 ≤ 2)%Z ∧ (0 ≤ 2 < 3 ∧ 3 ≤ 3 ∧ 3 - 2 ≤ 2)%Z).
Proof.
  assert (Hgrid : tile_windows 5 3 2 = Ok grid_5_3) by reflexivity.
  split; [exact Hgrid|].
  apply (tile_windows_bounds 5 3 2 grid_5_3 4 5 2 3); [lia|exact Hgrid|].
  unfold grid_5_3. do 5 right. left.
Defined.
End MetricsRuns.
